(** * valve.steam.api.interface: embedding and verified properties

    A shallow embedding of [valve/steam/api/interface.py]: identifier
    sanitisation, parameter tables, method and interface synthesis with
    version pinning, the interface catalogue, and the request path of the
    [API] client.

    Conventions.
    - Python [dict] objects are insertion-ordered association lists with
      unique keys ([dict]); [d[k] = v] keeps the position of an existing key
      and appends a new one.
    - Python [int] is [Z]; text is [string] (a sequence of bytes; the
      characters that survive sanitisation are ASCII).
    - Exceptions are values of [error]; the exceptions of the source are the
      Python classes [NameError], [TypeError], [ValueError], ... and the
      constructors are named after what each one reports.
    - [warnings.warn] appends to a log of [warning] values.
    - Descriptions decoded from the listing are typed records ([RawParam],
      [MethodSpec], [InterfaceSpec], [ApiList]); what [make_method] and
      [_MethodParameters] write back into a description is what the records
      [Param] and [Method] hold.  Every construction of a client decodes its
      own listing.
    - Argument values are [None], integers, finite floats and text; the
      synthesised functions are called with keyword arguments.
    - The dictionaries handed to [API.request] live in a store and are
      passed by reference; the HTTP session and the three parsers are
      parameters of the development.  [API.session] is not part of it.
    - A synthesised method is stored in the class under its own name, so a
      method may take the place of an attribute that Python or the module
      itself reads.  What [type] and [setattr] refuse, and a method called
      [name], are part of the embedding; what Python does with a class whose
      methods replace [__new__], [__init__], [__setattr__] or
      [__getattribute__] is a parameter of the development. *)

From Stdlib Require Import ZArith List String Ascii Bool Lia Arith.
From Stdlib Require Import DecimalString Permutation Sorted OrderedTypeEx.
Import ListNotations.
Open Scope string_scope.
Open Scope Z_scope.

Set Implicit Arguments.

(** ** Exceptions and warnings *)

Inductive bound := UpperBound | LowerBound.

Inductive error :=
| InvalidIdentifier (name : string)
    (* NameError: Cannot form valid Python identifier from name *)
| DuplicateParameter (name : string)
    (* NameError: Parameter name already in use *)
| SyntaxError (name : string)
    (* raised by compile() on a reserved word or a repeated argument *)
| MissingMandatoryArgument (name : string)
    (* TypeError: Missing mandatory argument *)
| MissingPositionalArgument (name : string)
    (* TypeError raised by the call itself *)
| UnexpectedKeywordArgument (name : string)
    (* TypeError raised by the call itself *)
| OutOfBoundsValue (b : bound) (value : Z) (type : string)
    (* ValueError: value exceeds upper bound / below lower bound *)
| TypeCoercionError (text : string)
    (* ValueError: invalid literal for int() *)
| NoneCoercionError
    (* TypeError: int() argument must be ... not NoneType *)
| InvalidDecoder (format : string)
    (* ValueError: Response formatter specifies its format as ... *)
| BadResponseFormat (format : string)
    (* ValueError: Bad response format *)
| KeyError (key : string)
| AttributeError (name : string)
| TransportError (info : string)
| DecodeError (info : string)
| NotCallable (name : string)
    (* TypeError: object is not callable *)
| TypeCreationError (attribute : string)
    (* TypeError raised by type() on a class attribute that it reads itself *)
| NullInTypeName
    (* ValueError: type name must not contain null characters *)
| ReadOnlyAttribute (name : string)
    (* AttributeError: readonly attribute *)
| ClassAssignmentError
    (* TypeError: __class__ assignment only supported for ... *)
| ShadowedAttribute (name : string).
    (* raised by [iter(interface)] when a method called [__iter__] stands in
       the place of the iterator of the class *)

Inductive py_exception :=
| PyNameError | PySyntaxError | PyTypeError | PyValueError
| PyKeyError | PyAttributeError | PyOther.

(* The Python class of each exception. *)
Definition exception_class (e : error) : py_exception :=
  match e with
  | InvalidIdentifier _ | DuplicateParameter _ => PyNameError
  | SyntaxError _ => PySyntaxError
  | MissingMandatoryArgument _ | MissingPositionalArgument _
  | UnexpectedKeywordArgument _ | NoneCoercionError | NotCallable _
  | TypeCreationError _ | ClassAssignmentError => PyTypeError
  | OutOfBoundsValue _ _ _ | TypeCoercionError _ | InvalidDecoder _
  | BadResponseFormat _ | NullInTypeName => PyValueError
  | KeyError _ => PyKeyError
  | AttributeError _ | ReadOnlyAttribute _ => PyAttributeError
  | TransportError _ | DecodeError _ | ShadowedAttribute _ => PyOther
  end.

Inductive warning :=
| UnknownParameterType (type : string)
    (* FutureWarning: No parameter type handler for type *)
| StaleVersionPinned (interface method : string) (version latest : Z).
    (* FutureWarning: interface/method is pinned to version ... but the most
       recent version is ... *)

Inductive result (A : Type) :=
| Ok (a : A)
| Err (e : error).
Arguments Ok {A} a.
Arguments Err {A} e.

(** ** Python values that reach the bindings *)

(* A finite float is known by its exact value, [mantissa * 2 ^ exponent],
   and by the text that [str()] prints for it. *)
Inductive py_value :=
| PyNone
| PyInt (z : Z)
| PyStr (s : string)
| PyFloat (mantissa exponent : Z) (repr : string).

(** ** Insertion-ordered dictionaries with text keys *)

Module Dict.
Section Dict.
Variable V : Type.

Definition dict := list (string * V).

Fixpoint get (k : string) (d : dict) : option V :=
  match d with
  | [] => None
  | (k', v) :: d' => if String.eqb k k' then Some v else get k d'
  end.

Definition mem (k : string) (d : dict) : bool :=
  match get k d with Some _ => true | None => false end.

(* d[k] = v *)
Fixpoint set (k : string) (v : V) (d : dict) : dict :=
  match d with
  | [] => [(k, v)]
  | (k', v') :: d' =>
      if String.eqb k k' then (k', v) :: d' else (k', v') :: set k v d'
  end.

(* del d[k], for a key that is present *)
Fixpoint del (k : string) (d : dict) : dict :=
  match d with
  | [] => []
  | (k', v') :: d' => if String.eqb k k' then d' else (k', v') :: del k d'
  end.

Definition keys (d : dict) : list string := map fst d.
Definition values (d : dict) : list V := map snd d.
Definition items (d : dict) : list (string * V) := d.

(* d.update(other) *)
Definition update (d other : dict) : dict :=
  fold_left (fun acc kv => set (fst kv) (snd kv) acc) other d.
End Dict.
End Dict.

Abbreviation dict := Dict.dict.

(** ** Character classes of the [string] module *)

Definition in_range (lo hi : nat) (c : ascii) : bool :=
  (Nat.leb lo (nat_of_ascii c) && Nat.leb (nat_of_ascii c) hi)%bool.

(* string.ascii_letters *)
Definition is_ascii_letter (c : ascii) : bool :=
  (in_range 97 122 c || in_range 65 90 c)%bool.

(* string.digits *)
Definition is_digit (c : ascii) : bool := in_range 48 57 c.

Definition is_underscore (c : ascii) : bool := Ascii.eqb c "_"%char.

(* char in string.ascii_letters + string.digits + "_" *)
Definition is_identifier_char (c : ascii) : bool :=
  (is_ascii_letter c || is_digit c || is_underscore c)%bool.

(* char in string.ascii_letters + "_" *)
Definition is_identifier_start (c : ascii) : bool :=
  (is_ascii_letter c || is_underscore c)%bool.

Fixpoint filter_chars (p : ascii -> bool) (s : string) : string :=
  match s with
  | EmptyString => EmptyString
  | String c s' => if p c then String c (filter_chars p s') else filter_chars p s'
  end.

Fixpoint string_forall (p : ascii -> bool) (s : string) : bool :=
  match s with
  | EmptyString => true
  | String c s' => (p c && string_forall p s')%bool
  end.

(** ** [_ensure_identifier] *)

(* The [while] loop: drop the first character for as long as it cannot start
   an identifier; indexing the empty text raises IndexError, reported here as
   [None]. *)
Fixpoint strip_leading (identifier : string) : option string :=
  match identifier with
  | EmptyString => None
  | String c rest =>
      if negb (is_identifier_start c) then strip_leading rest
      else Some identifier
  end.

Definition _ensure_identifier (name : string) : result string :=
  let identifier := filter_chars is_identifier_char name in
  match strip_leading identifier with
  | Some identifier' => Ok identifier'
  | None => Err (InvalidIdentifier name)
  end.

(** ** Parameter type handlers *)

Definition string_of_Z (z : Z) : string := NilZero.string_of_int (Z.to_int z).

(* Python's [int()] on text, for ASCII input: optional surrounding
   whitespace (the space and the bytes 9 to 13), an optional sign, then
   decimal digits in which single underscores may separate digits; a
   literal of more than 4300 digits is refused (the default of
   [sys.int_info.default_max_str_digits]). *)
Definition is_space (c : ascii) : bool :=
  let n := nat_of_ascii c in
  (Nat.eqb n 32 || (Nat.leb 9 n && Nat.leb n 13))%bool.

Fixpoint lstrip (s : string) : string :=
  match s with
  | String c s' => if is_space c then lstrip s' else s
  | EmptyString => EmptyString
  end.

Definition digit_value (c : ascii) : Z := Z.of_nat (nat_of_ascii c) - 48.

(* [after_digit] tells whether the previous character was a digit, so that an
   underscore or the end of the literal is allowed here. *)
Fixpoint parse_digits (after_digit : bool) (acc : Z) (s : string) : option Z :=
  match s with
  | EmptyString => if after_digit then Some acc else None
  | String c s' =>
      if is_digit c then parse_digits true (10 * acc + digit_value c) s'
      else if is_underscore c then
        if after_digit then parse_digits false acc s' else None
      else if is_space c then
        if (after_digit && string_forall is_space s')%bool then Some acc else None
      else None
  end.

Fixpoint count_digits (s : string) : Z :=
  match s with
  | EmptyString => 0
  | String c s' => (if is_digit c then 1 else 0) + count_digits s'
  end.

Definition parse_int (s : string) : option Z :=
  if 4300 <? count_digits s then None
  else
    match lstrip s with
    | String "-" s' => option_map Z.opp (parse_digits false 0 s')
    | String "+" s' => parse_digits false 0 s'
    | s' => parse_digits false 0 s'
    end.

(* int(value); a float is truncated towards zero *)
Definition py_int (value : py_value) : result Z :=
  match value with
  | PyInt z => Ok z
  | PyStr s => match parse_int s with
               | Some z => Ok z
               | None => Err (TypeCoercionError s)
               end
  | PyFloat mantissa exponent _ =>
      Ok (if 0 <=? exponent then mantissa * 2 ^ exponent
          else Z.quot mantissa (2 ^ (- exponent)))
  | PyNone => Err NoneCoercionError
  end.

(* str(value) *)
Definition py_str (value : py_value) : result py_value :=
  match value with
  | PyInt z => Ok (PyStr (string_of_Z z))
  | PyStr s => Ok (PyStr s)
  | PyFloat _ _ repr => Ok (PyStr repr)
  | PyNone => Ok (PyStr "None")
  end.

Definition uint32 (value : py_value) : result py_value :=
  match py_int value with
  | Err e => Err e
  | Ok value =>
      if value >? 4294967295 then Err (OutOfBoundsValue UpperBound value "uint32")
      else if value <? 0 then Err (OutOfBoundsValue LowerBound value "uint32")
      else Ok (PyInt value)
  end.

Definition uint64 (value : py_value) : result py_value :=
  match py_int value with
  | Err e => Err e
  | Ok value =>
      if value >? 18446744073709551615 then Err (OutOfBoundsValue UpperBound value "uint64")
      else if value <? 0 then Err (OutOfBoundsValue LowerBound value "uint64")
      else Ok (PyInt value)
  end.

Definition PARAMETER_TYPES : dict (py_value -> result py_value) :=
  [("string", py_str); ("uint32", uint32); ("uint64", uint64)].

(** ** Computations that may warn and may raise *)

Definition M (A : Type) : Type := (result A * list warning)%type.

Definition ret {A} (a : A) : M A := (Ok a, []).

Definition raise {A} (e : error) : M A := (Err e, []).

Definition warn (w : warning) : M unit := (Ok tt, [w]).

Definition bind {A B} (m : M A) (f : A -> M B) : M B :=
  match m with
  | (Ok a, log) => let (r, log') := f a in (r, (log ++ log')%list)
  | (Err e, log) => (Err e, log)
  end.

Definition lift {A} (r : result A) : M A := (r, []).

Notation "x <- m ;; k" := (bind m (fun x => k))
  (at level 61, m at next level, right associativity).
Notation "m ;;; k" := (bind m (fun _ => k))
  (at level 61, right associativity).

(* for x in xs: acc = body(acc, x) *)
Fixpoint for_each {A S} (body : S -> A -> M S) (xs : list A) (acc : S) : M S :=
  match xs with
  | [] => ret acc
  | x :: xs' => acc' <- body acc x ;; for_each body xs' acc'
  end.

(** ** [_MethodParameters] *)

(* A parameter description as it arrives from the API listing. *)
Record RawParam := {
  raw_name : string;
  raw_type : string;
  raw_optional : bool;
  raw_description : option string
}.

(* The same description once [__init__] has rewritten it. *)
Record Param := {
  p_name : string;
  p_type : string;
  p_optional : bool;
  p_description : string
}.

Definition init_param (unordered : dict Param) (spec : RawParam) : M (dict Param) :=
  if String.eqb (raw_name spec) "key" then ret unordered
  else
    name <- lift (_ensure_identifier (raw_name spec)) ;;
    if Dict.mem name unordered then raise (DuplicateParameter name)
    else
      let description :=
        match raw_description spec with Some d => d | None => "" end in
      type <- (if Dict.mem (raw_type spec) PARAMETER_TYPES then ret (raw_type spec)
               else warn (UnknownParameterType (raw_type spec)) ;;; ret "string") ;;
      ret (Dict.set name {| p_name := name; p_type := type;
                            p_optional := raw_optional spec;
                            p_description := description |} unordered).

(* sorted(items, key=lambda a: a[0]): insertion sort, stable *)
Fixpoint insert_by_key {V} (kv : string * V) (l : list (string * V)) : list (string * V) :=
  match l with
  | [] => [kv]
  | kv' :: l' =>
      if String.ltb (fst kv) (fst kv') then kv :: l
      else kv' :: insert_by_key kv l'
  end.

Definition sorted_by_key {V} (l : list (string * V)) : list (string * V) :=
  fold_left (fun acc kv => insert_by_key kv acc) l [].

Definition MethodParameters_init (specs : list RawParam) : M (dict Param) :=
  unordered <- for_each init_param specs [] ;;
  ret (sorted_by_key (Dict.items unordered)).

(* The loop of [signature]: split the parameters into the two groups. *)
Definition split_parameters (params : list Param) : list Param * list Param :=
  fold_left (fun (acc : list Param * list Param) param =>
               let (optional, mandatory) := acc in
               if p_optional param then ((optional ++ [param])%list, mandatory)
               else (optional, (mandatory ++ [param])%list))
            params ([], []).

Definition signature_items (self : dict Param) : list string :=
  let (optional, mandatory) := split_parameters (Dict.values self) in
  (["self"] ++ map p_name mandatory
            ++ map (fun param => (p_name param ++ "=None")%string) optional)%list.

Definition signature (self : dict Param) : string :=
  String.concat ", " (signature_items self).

Definition validate_arg (kwargs : dict py_value) (values : dict py_value)
    (arg : Param) : result (dict py_value) :=
  let value := match Dict.get (p_name arg) kwargs with
               | Some v => v
               | None => PyNone
               end in
  match value with
  | PyNone =>
      if negb (p_optional arg) then Err (MissingMandatoryArgument (p_name arg))
      else Ok values
  | _ =>
      match Dict.get (p_type arg) PARAMETER_TYPES with
      | None => Err (KeyError (p_type arg))
      | Some handler =>
          match handler value with
          | Ok coerced => Ok (Dict.set (p_name arg) coerced values)
          | Err e => Err e
          end
      end
  end.

Fixpoint validate_loop (kwargs : dict py_value) (args : list Param)
    (values : dict py_value) : result (dict py_value) :=
  match args with
  | [] => Ok values
  | arg :: args' =>
      match validate_arg kwargs values arg with
      | Ok values' => validate_loop kwargs args' values'
      | Err e => Err e
      end
  end.

Definition validate (self : dict Param) (kwargs : dict py_value)
    : result (dict py_value) :=
  validate_loop kwargs (Dict.values self) [].

(** ** [make_method] *)

Record MethodSpec := {
  ms_name : string;
  ms_version : Z;
  ms_httpmethod : string;
  ms_parameters : list RawParam
}.

(* The synthesised function: the attributes [name] and [version] stamped on
   it, and what its closure holds ([spec["httpmethod"]] and [args]). *)
Record Method := {
  m_name : string;
  m_version : Z;
  m_httpmethod : string;
  m_args : dict Param;
  m_doc : option string
}.

(* Reserved words of Python 3: [compile] rejects a definition that uses one
   as the function name or as an argument name. *)
Definition python_keywords : list string :=
  ["False"; "None"; "True"; "and"; "as"; "assert"; "async"; "await"; "break";
   "class"; "continue"; "def"; "del"; "elif"; "else"; "except"; "finally";
   "for"; "from"; "global"; "if"; "import"; "in"; "is"; "lambda"; "nonlocal";
   "not"; "or"; "pass"; "raise"; "return"; "try"; "while"; "with"; "yield";
   "__debug__"].

Definition is_reserved (name : string) : bool :=
  existsb (String.eqb name) python_keywords.

(* compile() of the generated [def name(self, ...)]: the argument list
   repeats [self] when a parameter carries that name. *)
Definition compile_def (name : string) (args : dict Param) : result unit :=
  if is_reserved name then Err (SyntaxError name)
  else
    match find (fun arg => (is_reserved arg || String.eqb arg "self")%bool)
               (Dict.keys args) with
    | Some arg => Err (SyntaxError arg)
    | None => Ok tt
    end.

Definition param_doc (kv : string * Param) : string :=
  ":param " ++ p_type (snd kv) ++ " " ++ fst kv ++ ": " ++ p_description (snd kv).

Definition make_method (spec : MethodSpec) : M Method :=
  name <- lift (_ensure_identifier (ms_name spec)) ;;
  args <- MethodParameters_init (ms_parameters spec) ;;
  lift (compile_def name args) ;;;
  let param_docs := map param_doc (Dict.items args) in
  ret {| m_name := name;
         m_version := ms_version spec;
         m_httpmethod := ms_httpmethod spec;
         m_args := args;
         m_doc := match param_docs with
                  | [] => None
                  | _ => Some (String.concat (String (ascii_of_nat 10) "") param_docs)
                  end |}.

(* Calling the synthesised function with keyword arguments: Python binds them
   to the generated signature, the body passes [locals()] to the closure,
   which validates them.  The result is the argument tuple handed to
   [self._request].  The body looks up the names [method] and [locals]: a
   parameter of that name is what it finds, and calling an argument value
   raises TypeError. *)
Definition bind_arguments (args : dict Param) (kwargs : dict py_value)
    : result (dict py_value) :=
  match find (fun k => negb (Dict.mem k args)) (Dict.keys kwargs) with
  | Some k => Err (UnexpectedKeywordArgument k)
  | None =>
      match find (fun arg => (negb (p_optional arg)
                              && negb (Dict.mem (p_name arg) kwargs))%bool)
                 (Dict.values args) with
      | Some arg => Err (MissingPositionalArgument (p_name arg))
      | None =>
          Ok (map (fun arg => (p_name arg,
                               match Dict.get (p_name arg) kwargs with
                               | Some v => v
                               | None => PyNone
                               end))
                  (snd (split_parameters (Dict.values args))
                   ++ fst (split_parameters (Dict.values args)))%list)
      end
  end.

Definition method_call (method : Method) (kwargs : dict py_value)
    : result (string * string * Z * dict py_value) :=
  match bind_arguments (m_args method) kwargs with
  | Err e => Err e
  | Ok locals =>
      if Dict.mem "locals" (m_args method) then Err (NotCallable "locals")
      else if Dict.mem "method" (m_args method) then Err (NotCallable "method")
      else
        match validate (m_args method) locals with
        | Err e => Err e
        | Ok params =>
            Ok (m_httpmethod method, m_name method, m_version method, params)
        end
  end.

(** ** [make_interface] *)

Record InterfaceSpec := {
  is_name : string;
  is_methods : list MethodSpec
}.

(* What the namespace of a synthesised class holds. *)
Inductive attr :=
| AttrName (name : string)       (* attrs["name"] *)
| AttrIter                       (* attrs["__iter__"], iterating [methods] *)
| AttrMethod (method : Method).

(* The class built by [type(name, (BaseInterface,), attrs)]; [i_methods] is
   the dictionary captured by the [__iter__] closure. *)
Record Interface := {
  i_typename : string;
  i_methods : dict Method;
  i_attrs : dict attr
}.

(* The two dictionaries the first loop of [make_interface] fills. *)
Record Resolution := {
  methods : dict Method;
  max_versions : dict Z
}.

Definition resolve_method (versions : dict Z) (st : Resolution) (method : Method)
    : Resolution :=
  let pinned_version := Dict.get (m_name method) versions in
  let (method, methods') :=
    match pinned_version with
    | None =>
        let current_method := Dict.get (m_name method) (methods st) in
        let method :=
          match current_method with
          | Some current =>
              if m_version method <? m_version current then current else method
          | None => method
          end in
        (method, Dict.set (m_name method) method (methods st))
    | Some pinned =>
        (method,
         if m_version method =? pinned
         then Dict.set (m_name method) method (methods st)
         else methods st)
    end in
  {| methods := methods';
     max_versions :=
       Dict.set (m_name method)
                (Z.max (m_version method)
                       (match Dict.get (m_name method) (max_versions st) with
                        | Some v => v
                        | None => 0
                        end))
                (max_versions st) |}.

Definition resolve_spec (versions : dict Z) (st : Resolution)
    (method_spec : MethodSpec) : M Resolution :=
  method <- make_method method_spec ;;
  ret (resolve_method versions st method).

Definition warn_stale (interface : string) (max_versions : dict Z)
    (_ : unit) (method : Method) : M unit :=
  match Dict.get (m_name method) max_versions with
  | None => raise (KeyError (m_name method))
  | Some latest =>
      if m_version method <? latest
      then warn (StaleVersionPinned interface (m_name method)
                                    (m_version method) latest)
      else ret tt
  end.

(* type(name, (BaseInterface,), attrs).  [type] reads the attributes
   [__slots__], [__qualname__] and [__classcell__] of the namespace itself
   and refuses a function there; it refuses a name that holds a NUL
   character.  The checks come in this order. *)
Definition type_new (name : string) (attrs : dict attr) : result unit :=
  if Dict.mem "__slots__" attrs then Err (TypeCreationError "__slots__")
  else if negb (string_forall (fun c => negb (Ascii.eqb c zero)) name)
  then Err NullInTypeName
  else if Dict.mem "__qualname__" attrs then Err (TypeCreationError "__qualname__")
  else if Dict.mem "__classcell__" attrs then Err (TypeCreationError "__classcell__")
  else Ok tt.

Definition make_interface (spec : InterfaceSpec) (versions : dict Z)
    : M Interface :=
  let attrs := [("name", AttrName (is_name spec)); ("__iter__", AttrIter)] in
  st <- for_each (resolve_spec versions) (is_methods spec)
                 {| methods := []; max_versions := [] |} ;;
  for_each (warn_stale (is_name spec) (max_versions st))
           (Dict.values (methods st)) tt ;;;
  let attrs := Dict.update attrs
                 (map (fun kv => (fst kv, AttrMethod (snd kv)))
                      (Dict.items (methods st))) in
  lift (type_new (is_name spec) attrs) ;;;
  ret {| i_typename := is_name spec;
         i_methods := methods st;
         i_attrs := attrs |}.

(* The synthesised method that a class holds under a name. *)
Definition bound_method (interface : Interface) (name : string) : option Method :=
  match Dict.get name (i_attrs interface) with
  | Some (AttrMethod method) => Some method
  | _ => None
  end.

(** ** [make_interfaces] *)

Record ApiList := { interfaces : list InterfaceSpec }.

Inductive module_attr :=
| ModOther                        (* __name__, __doc__, ... *)
| ModAll (names : list string)    (* __all__ *)
| ModClass (interface : Interface).

(* types.ModuleType("interfaces") *)
Definition new_module : dict module_attr :=
  [("__name__", ModOther); ("__doc__", ModOther); ("__package__", ModOther);
   ("__loader__", ModOther); ("__spec__", ModOther)].

(* A key of a [versions] mapping: the text of an interface name, or the
   bound method that [interface.name] is once a method called [name] has
   replaced the class attribute. *)
Inductive pin_key :=
| KeyText (name : string)
| KeyBound (interface : Interface) (method : Method).

Definition VersionPins := list (pin_key * dict Z).

(* versions.get(name), for a text: no other key equals a text *)
Fixpoint pins_get (name : string) (versions : VersionPins) : option (dict Z) :=
  match versions with
  | [] => None
  | (KeyText k, v) :: rest =>
      if String.eqb name k then Some v else pins_get name rest
  | (KeyBound _ _, _) :: rest => pins_get name rest
  end.

Fixpoint pins_set_text (name : string) (value : dict Z) (versions : VersionPins)
    : VersionPins :=
  match versions with
  | [] => [(KeyText name, value)]
  | (KeyText k, v) :: rest =>
      if String.eqb name k then (KeyText k, value) :: rest
      else (KeyText k, v) :: pins_set_text name value rest
  | entry :: rest => entry :: pins_set_text name value rest
  end.

(* versions[key] = value.  Bound methods of different instances are
   different keys, and [pin_versions] meets every instance once. *)
Definition pins_set (key : pin_key) (value : dict Z) (versions : VersionPins)
    : VersionPins :=
  match key with
  | KeyText name => pins_set_text name value versions
  | KeyBound _ _ => (versions ++ [(key, value)])%list
  end.

(* setattr(module, name, value): the module type keeps [__dict__] read-only
   and refuses a class that is no module type as [__class__]. *)
Definition module_setattr (name : string) (value : module_attr)
    (module : dict module_attr) : result (dict module_attr) :=
  if String.eqb name "__dict__" then Err (ReadOnlyAttribute "__dict__")
  else if String.eqb name "__class__" then Err ClassAssignmentError
  else Ok (Dict.set name value module).

Definition add_interface (versions : VersionPins)
    (module : dict module_attr) (interface_spec : InterfaceSpec)
    : M (dict module_attr) :=
  interface <- make_interface interface_spec
                 (match pins_get (is_name interface_spec) versions with
                  | Some pins => pins
                  | None => []
                  end) ;;
  match Dict.get "__all__" module with
  | Some (ModAll names) =>
      let module := Dict.set "__all__"
                      (ModAll (names ++ [i_typename interface])%list) module in
      lift (module_setattr (i_typename interface) (ModClass interface) module)
  | _ => raise (AttributeError "append")
  end.

Definition make_interfaces (api_list : ApiList) (versions : VersionPins)
    : M (dict module_attr) :=
  let module := Dict.set "__all__" (ModAll []) new_module in
  for_each (add_interface versions) (interfaces api_list) module.

(** ** The [API] client *)

Definition API_RESPONSE_FORMATS : list string := ["json"; "vdf"; "xml"].

Definition api_root : string := "https://api.steampowered.com/".

(* A call of [Session.request(http_method, url, params)]. *)
Record HttpRequest := {
  rq_method : string;
  rq_url : string;
  rq_params : dict py_value
}.

(* Mutable dictionaries live in a store and are passed by reference. *)
Definition loc := nat.

Record World := {
  store : loc -> dict py_value;
  next_loc : loc;
  sent : list HttpRequest          (* transport calls made so far *)
}.

Definition alloc (d : dict py_value) (w : World) : loc * World :=
  (next_loc w,
   {| store := fun l => if Nat.eqb l (next_loc w) then d else store w l;
      next_loc := S (next_loc w);
      sent := sent w |}).

Definition modify (l : loc) (f : dict py_value -> dict py_value) (w : World)
    : World :=
  {| store := fun l' => if Nat.eqb l' l then f (store w l) else store w l';
     next_loc := next_loc w;
     sent := sent w |}.

Definition transmit (rq : HttpRequest) (w : World) : World :=
  {| store := store w; next_loc := next_loc w; sent := (sent w ++ [rq])%list |}.

Section Client.

(* Decoded responses, the transport and the three parsers are collaborators
   outside the module. *)
Variable Resp : Type.
(* What Python makes of a class whose synthesised methods replace the hooks
   of object construction, or the hook of attribute lookup, is left open:
   [interface(self)] for the former, [versions[interface.name] = ...] for
   the latter. *)
Variable python_instantiate : Interface -> result Interface.
Variable python_pin_by_name :
  VersionPins -> Interface -> dict Z -> result VersionPins.
Variable session_request : HttpRequest -> result string.
Variable json_loads : string -> result Resp.
Variable etree_fromstring : string -> result Resp.
Variable vdf_loads : string -> result Resp.
(* The decoded listing, read as [api_list["apilist"]["interfaces"]] and the
   keys of each description. *)
Variable api_list_of : Resp -> result ApiList.

(* A response formatter: a callable with a [format] attribute. *)
Record Decoder := {
  format_tag : string;
  decode : string -> result Resp
}.

(* The decorator: it refuses a format outside the three, and otherwise stamps
   the format on the wrapped function. *)
Definition api_response_format (format : string)
    (function : string -> result Resp) : result Decoder :=
  if negb (existsb (String.eqb format) API_RESPONSE_FORMATS)
  then Err (BadResponseFormat format)
  else Ok {| format_tag := format; decode := function |}.

Definition json_format : Decoder :=
  {| format_tag := "json"; decode := json_loads |}.

Definition etree_format : Decoder :=
  {| format_tag := "xml"; decode := etree_fromstring |}.

Definition vdf_format : Decoder :=
  {| format_tag := "vdf"; decode := vdf_loads |}.

Record API := {
  api_key : option string;
  api_format : Decoder;
  api_interfaces_module : dict module_attr;
  api_interfaces : dict Interface
}.

(* if self.key: *)
Definition truthy_key (key : option string) : option string :=
  match key with
  | Some EmptyString => None
  | Some k => Some k
  | None => None
  end.

Definition request (self : API) (http_method interface method : string)
    (version : Z) (params : option loc) (format : option Decoder)
    (w : World) : result Resp * World :=
  let (params, w) :=
    match params with
    | Some l => (l, w)
    | None => alloc [] w
    end in
  let format := match format with Some f => f | None => api_format self end in
  let path := interface ++ "/" ++ method ++ "/v" ++ string_of_Z version ++ "/" in
  if negb (existsb (String.eqb (format_tag format)) API_RESPONSE_FORMATS)
  then (Err (InvalidDecoder (format_tag format)), w)
  else
    let w := modify params (Dict.set "format" (PyStr (format_tag format))) w in
    let w := if Dict.mem "key" (store w params)
             then modify params (Dict.del "key") w else w in
    let w := match truthy_key (api_key self) with
             | Some key => modify params (Dict.set "key" (PyStr key)) w
             | None => w
             end in
    let rq := {| rq_method := http_method;
                 rq_url := api_root ++ path;
                 rq_params := store w params |} in
    let w := transmit rq w in
    match session_request rq with
    | Err e => (Err e, w)
    | Ok text => (decode format text, w)
    end.

(* The methods that object construction looks up on the class. *)
Definition construction_hooks : list string :=
  ["__new__"; "__init__"; "__setattr__"].

(* interface(self): [object.__new__], then [BaseInterface.__init__], which
   sets [self._api]; an instance is known by its class. *)
Definition instantiate (interface : Interface) : result Interface :=
  if existsb (fun hook => Dict.mem hook (i_attrs interface)) construction_hooks
  then python_instantiate interface
  else Ok interface.

(* The loop of [_bind_interfaces]: [issubclass] raises TypeError for what is
   no class, and a TypeError from the instantiation is swallowed with it. *)
Fixpoint bind_loop (items : list (string * module_attr))
    (interfaces : dict Interface) : result (dict Interface) :=
  match items with
  | [] => Ok interfaces
  | (name, ModClass interface) :: rest =>
      match instantiate interface with
      | Ok instance => bind_loop rest (Dict.set name instance interfaces)
      | Err e =>
          match exception_class e with
          | PyTypeError => bind_loop rest interfaces
          | _ => Err e
          end
      end
  | _ :: rest => bind_loop rest interfaces
  end.

Definition _bind_interfaces (module : dict module_attr) : result (dict Interface) :=
  bind_loop (Dict.items module) [].

(* The last lines of [__init__], once the module is known. *)
Definition API_with (key : option string) (format : Decoder)
    (interfaces : dict module_attr) : result API :=
  match _bind_interfaces interfaces with
  | Ok bound =>
      Ok {| api_key := key;
            api_format := format;
            api_interfaces_module := interfaces;
            api_interfaces := bound |}
  | Err e => Err e
  end.

(* What [self.format] is after the first lines of [__init__]: the three
   names stand for the built-in formatters; any other text stays a [str],
   whose [format] attribute is the string method and whose call cannot be
   reached past the check of [request]. *)
Definition chosen_format (format : string + Decoder) : Decoder :=
  match format with
  | inl name =>
      if String.eqb name "json" then json_format
      else if String.eqb name "xml" then etree_format
      else if String.eqb name "vdf" then vdf_format
      else {| format_tag := "<built-in method format of str object>";
              decode := fun _ =>
                Err (InvalidDecoder "<built-in method format of str object>") |}
  | inr formatter => formatter
  end.

(* API(key, format, versions, interfaces).  Without prebuilt interfaces the
   listing is fetched with the JSON formatter and read as typed records by
   [api_list_of]. *)
Definition API_init (key : option string) (format : string + Decoder)
    (versions : option VersionPins)
    (interfaces : option (dict module_attr)) (w : World) : M API * World :=
  let format := chosen_format format in
  match interfaces with
  | None =>
      let self := {| api_key := key; api_format := format;
                     api_interfaces_module := []; api_interfaces := [] |} in
      let (response, w) :=
        request self "GET" "ISteamWebAPIUtil" "GetSupportedAPIList" 1
                None (Some json_format) w in
      match response with
      | Err e => (raise e, w)
      | Ok response =>
          (api_list <- lift (api_list_of response) ;;
           module <- make_interfaces api_list
                       (match versions with Some v => v | None => [] end) ;;
           lift (API_with key format module),
           w)
      end
  | Some module => (lift (API_with key format module), w)
  end.

(* iter(interface) *)
Definition interface_iter (interface : Interface) : result (list Method) :=
  match Dict.get "__iter__" (i_attrs interface) with
  | Some AttrIter => Ok (Dict.values (i_methods interface))
  | _ => Err (ShadowedAttribute "__iter__")
  end.

(* interface.name, looked up on the class: the text that [make_interface]
   stored, or the method that has replaced it, bound to the instance. *)
Definition interface_name (interface : Interface) : result pin_key :=
  match Dict.get "name" (i_attrs interface) with
  | Some (AttrName name) => Ok (KeyText name)
  | Some (AttrMethod method) => Ok (KeyBound interface method)
  | _ => Err (AttributeError "name")
  end.

Definition pin_interface (versions : VersionPins) (interface : Interface)
    : result VersionPins :=
  match interface_iter interface with
  | Err e => Err e
  | Ok bound =>
      let method_versions :=
        fold_left (fun acc method => Dict.set (m_name method) (m_version method) acc)
                  bound [] in
      if Dict.mem "__getattribute__" (i_attrs interface)
      then python_pin_by_name versions interface method_versions
      else
        match interface_name interface with
        | Err e => Err e
        | Ok name => Ok (pins_set name method_versions versions)
        end
  end.

Fixpoint pin_loop (interfaces : list Interface) (versions : VersionPins)
    : result VersionPins :=
  match interfaces with
  | [] => Ok versions
  | interface :: rest =>
      match pin_interface versions interface with
      | Ok versions' => pin_loop rest versions'
      | Err e => Err e
      end
  end.

Definition pin_versions (self : API) : result VersionPins :=
  pin_loop (Dict.values (api_interfaces self)) [].

(* format if format is not None else self.format *)
Definition selected_decoder (self : API) (format : option Decoder) : Decoder :=
  match format with Some f => f | None => api_format self end.

(* The dictionary [request] leaves behind, and sends. *)
Definition outgoing (self : API) (format : Decoder) (d : dict py_value)
    : dict py_value :=
  let d := Dict.set "format" (PyStr (format_tag format)) d in
  let d := if Dict.mem "key" d then Dict.del "key" d else d in
  match truthy_key (api_key self) with
  | Some key => Dict.set "key" (PyStr key) d
  | None => d
  end.

(* self[interface_name] *)
Definition API_getitem (self : API) (interface_name : string) : result Interface :=
  match Dict.get interface_name (api_interfaces self) with
  | Some interface => Ok interface
  | None => Err (KeyError interface_name)
  end.

End Client.

(** * Vocabulary of the statements *)

(** *** Parameter tables *)

Definition key_lt {V} (a b : string * V) : Prop :=
  String.ltb (fst a) (fst b) = true.

Definition param_lt (p q : Param) : Prop :=
  String.ltb (p_name p) (p_name q) = true.

(* Every entry of a parameter table is filed under its own name. *)
Definition table_ok (d : dict Param) : Prop :=
  NoDup (Dict.keys d) /\ Forall (fun kv => p_name (snd kv) = fst kv) d.

Definition param_a (description : option string) : RawParam :=
  {| raw_name := "a"; raw_type := "string"; raw_optional := true;
     raw_description := description |}.

Definition param_b (description : option string) : RawParam :=
  {| raw_name := "b"; raw_type := "uint32"; raw_optional := false;
     raw_description := description |}.

(** *** Version resolution *)

(* The [make_method] calls of the first loop of [make_interface], in order. *)
Fixpoint make_methods (specs : list MethodSpec) : M (list Method) :=
  match specs with
  | [] => ret []
  | spec :: rest =>
      method <- make_method spec ;;
      others <- make_methods rest ;;
      ret (method :: others)
  end.

Definition no_resolution : Resolution := {| methods := []; max_versions := [] |}.

Definition resolved (versions : dict Z) (meths : list Method) : Resolution :=
  fold_left (resolve_method versions) meths no_resolution.

(* The methods synthesised under one name, and their versions, as listed. *)
Definition named (name : string) (meths : list Method) : list Method :=
  filter (fun m => String.eqb (m_name m) name) meths.

Definition versions_declared (name : string) (meths : list Method) : list Z :=
  map m_version (named name meths).

(* What one step of the loop does to the entry of [name] in [methods] ... *)
Definition select_step (versions : dict Z) (name : string)
    (current : option Method) (m : Method) : option Method :=
  if String.eqb (m_name m) name then
    match Dict.get name versions with
    | None =>
        match current with
        | Some c => if m_version m <? m_version c then Some c else Some m
        | None => Some m
        end
    | Some pinned => if m_version m =? pinned then Some m else current
    end
  else current.

(* ... and to its entry in [max_versions]. *)
Definition latest_step (name : string) (latest : option Z) (m : Method) : option Z :=
  if String.eqb (m_name m) name then
    Some (Z.max (m_version m) (match latest with Some v => v | None => 0 end))
  else latest.

Definition stale_warning (interface : string) (max_versions : dict Z)
    (m : Method) : list warning :=
  match Dict.get (m_name m) max_versions with
  | Some latest =>
      if m_version m <? latest
      then [StaleVersionPinned interface (m_name m) (m_version m) latest]
      else []
  | None => []
  end.

(* Entries are filed under the method's own name, and no bound method is
   newer than the latest version recorded for its name. *)
Definition resolution_ok (st : Resolution) : Prop :=
  NoDup (Dict.keys (methods st)) /\
  forall k c, Dict.get k (methods st) = Some c ->
    m_name c = k /\
    exists latest, Dict.get k (max_versions st) = Some latest /\ m_version c <= latest.


(* The synthesised class, given what the first loop resolved. *)
Definition interface_of (spec : InterfaceSpec) (st : Resolution) : Interface :=
  {| i_typename := is_name spec;
     i_methods := methods st;
     i_attrs := Dict.update [("name", AttrName (is_name spec)); ("__iter__", AttrIter)]
                  (map (fun kv => (fst kv, AttrMethod (snd kv)))
                       (Dict.items (methods st))) |}.

Definition stale_warnings (interface : string) (st : Resolution) : list warning :=
  flat_map (stale_warning interface (max_versions st)) (Dict.values (methods st)).

(* The attributes of a class namespace that [type] reads itself. *)
Definition type_reads : list string :=
  ["__slots__"; "__qualname__"; "__classcell__"].

(* [type] can create a class of this name that binds these methods: the
   name holds no NUL character and no method is bound under a name that
   [type] reads. *)
Definition creatable (name : string) (bound : dict Method) : Prop :=
  string_forall (fun c => negb (Ascii.eqb c zero)) name = true /\
  forall n, In n type_reads -> Dict.get n bound = None.

(** *** The catalogue and [pin_versions] *)

(* versions.get(name, {}) *)
Definition pins_for (versions : VersionPins) (interface : string) : dict Z :=
  match pins_get interface versions with
  | Some pins => pins
  | None => []
  end.

(* The methods synthesised from the descriptions of an interface. *)
Definition methods_of (spec : InterfaceSpec) : list Method :=
  match fst (make_methods (is_methods spec)) with
  | Ok meths => meths
  | Err _ => []
  end.

Definition class_of (versions : VersionPins) (spec : InterfaceSpec) : Interface :=
  interface_of spec (resolved (pins_for versions (is_name spec)) (methods_of spec)).

(* The version a catalogue binds for a method of an interface. *)
Definition catalog_version (catalog : dict Interface) (interface method : string)
    : option Z :=
  match Dict.get interface catalog with
  | Some i => option_map m_version (bound_method i method)
  | None => None
  end.

(* Every pin that applies to a declared method name names one of the
   versions declared for it. *)
Definition pins_declared (api_list : ApiList) (versions : VersionPins) : Prop :=
  forall spec name pinned,
    In spec (interfaces api_list) ->
    Dict.get name (pins_for versions (is_name spec)) = Some pinned ->
    named name (methods_of spec) <> [] ->
    In pinned (versions_declared name (methods_of spec)).

(* Two modules built from the same listing under different pins. *)
Definition same_classes (known : list InterfaceSpec) (v1 v2 : VersionPins)
    (m1 m2 : dict module_attr) : Prop :=
  forall x,
    match Dict.get x m1, Dict.get x m2 with
    | Some (ModClass i1), Some (ModClass i2) =>
        exists spec, In spec known /\ is_name spec = x /\
                     i1 = class_of v1 spec /\ i2 = class_of v2 spec
    | Some (ModAll _), Some (ModAll _) => True
    | Some ModOther, Some ModOther => True
    | None, None => True
    | _, _ => False
    end.

Definition first_module : dict module_attr :=
  Dict.set "__all__" (ModAll []) new_module.

(* The names under which [setattr] refuses to store into a module. *)
Definition module_reserved : list string := ["__dict__"; "__class__"].

(* Every class of a module, keyed by its attribute name. *)
Definition classes_of (module : dict module_attr) : dict Interface :=
  fold_left (fun acc kv =>
               match snd kv with
               | ModClass interface => Dict.set (fst kv) interface acc
               | _ => acc
               end)
            (Dict.items module) [].

(* The names of class attributes that binding a client and reading its pins
   back go through. *)
Definition hook_names : list string :=
  ["name"; "__iter__"; "__getattribute__"; "__new__"; "__init__"; "__setattr__"].

(* No synthesised method of the listing carries one of the names. *)
Definition none_called (names : list string) (api_list : ApiList) : Prop :=
  forall spec m,
    In spec (interfaces api_list) -> In m (methods_of spec) ->
    ~ In (m_name m) names.

(* method_versions, as the inner loop of [pin_versions] fills it *)
Definition method_versions (bound : list Method) : dict Z :=
  fold_left (fun acc method => Dict.set (m_name method) (m_version method) acc)
            bound [].

(* Rebuilding the catalogue of a listing under the pins that [pin_versions]
   reports for it binds the same version, or nothing, under every method
   name of every interface. *)
Definition round_trip {Resp} (python_instantiate : Interface -> result Interface)
    (python_pin_by_name : VersionPins -> Interface -> dict Z -> result VersionPins)
    (key : option string) (format : Decoder Resp)
    (api_list : ApiList) (versions : VersionPins) : Prop :=
  forall module log self pins,
    make_interfaces api_list versions = (Ok module, log) ->
    API_with python_instantiate key format module = Ok self ->
    pin_versions python_pin_by_name self = Ok pins ->
    exists module' log' self',
      make_interfaces api_list pins = (Ok module', log') /\
      API_with python_instantiate key format module' = Ok self' /\
      forall interface method,
        catalog_version (api_interfaces self') interface method
        = catalog_version (api_interfaces self) interface method.

(** *** Worked examples *)

Definition example_method (name : string) (version : Z) : MethodSpec :=
  {| ms_name := name; ms_version := version; ms_httpmethod := "GET";
     ms_parameters :=
       [ {| raw_name := "appid"; raw_type := "uint32"; raw_optional := false;
            raw_description := Some "AppID to retrieve news for" |};
         {| raw_name := "count"; raw_type := "uint32"; raw_optional := true;
            raw_description := None |} ] |}.

Definition news_interface : InterfaceSpec :=
  {| is_name := "ISteamNews";
     is_methods := [example_method "GetNewsForApp" 1;
                    example_method "GetNewsForApp" 2] |}.

Definition news_listing : ApiList := {| interfaces := [news_interface] |}.

Definition pin_news (version : Z) : VersionPins :=
  [(KeyText "ISteamNews", [("GetNewsForApp", version)])].

(* An interface that declares one method, in the versions 1 and 2. *)
Definition two_versions_of (interface method : string) : InterfaceSpec :=
  {| is_name := interface;
     is_methods := [example_method method 1; example_method method 2] |}.


Definition name_listing : ApiList :=
  {| interfaces := [two_versions_of "ISteamNews" "name"] |}.

Definition pin_name (version : Z) : VersionPins :=
  [(KeyText "ISteamNews", [("name", version)])].

(* Stand-ins for what Python does with classes that replace a hook; the
   listings of the examples have none. *)
Definition example_instantiate (interface : Interface) : result Interface :=
  Ok interface.

Definition example_pin_by_name (versions : VersionPins) (interface : Interface)
    (method_versions : dict Z) : result VersionPins :=
  Ok versions.

(* A formatter that hands the text back, declared under [tag]. *)
Definition text_format (tag : string) : Decoder string :=
  {| format_tag := tag; decode := fun text => Ok text |}.

Definition example_api (key : option string) (format : string) : API string :=
  {| api_key := key; api_format := text_format format;
     api_interfaces_module := []; api_interfaces := [] |}.

Definition example_transport (rq : HttpRequest) : result string := Ok "{}".

(* One dictionary in the store, handed in by the caller. *)
Definition example_world : World :=
  {| store := fun l => match l with
                       | O => [("key", PyStr "caller"); ("steamid", PyInt 76561197960435530)]
                       | _ => []
                       end;
     next_loc := 1%nat;
     sent := [] |}.

Definition example_ab : MethodSpec :=
  {| ms_name := "Get-Foo"; ms_version := 1; ms_httpmethod := "GET";
     ms_parameters := [param_a None; param_b (Some "bee")] |}.

(** *** Further vocabulary *)

(* [A-Za-z_][A-Za-z0-9_]* *)
Definition is_identifier (s : string) : bool :=
  match s with
  | EmptyString => false
  | String c _ => (is_identifier_start c && string_forall is_identifier_char s)%bool
  end.

(* The descriptions that [_MethodParameters] does not skip. *)
Definition described (specs : list RawParam) : list RawParam :=
  filter (fun spec => negb (String.eqb (raw_name spec) "key")) specs.

Definition sanitized_name (spec : RawParam) : string :=
  match _ensure_identifier (raw_name spec) with
  | Ok name => name
  | Err _ => ""
  end.

(* The entry that [__init__] files for a description. *)
Definition table_entry (spec : RawParam) : string * Param :=
  (sanitized_name spec,
   {| p_name := sanitized_name spec;
      p_type := if Dict.mem (raw_type spec) PARAMETER_TYPES
                then raw_type spec else "string";
      p_optional := raw_optional spec;
      p_description := match raw_description spec with
                       | Some d => d
                       | None => ""
                       end |}).

Definition type_warnings (specs : list RawParam) : list warning :=
  flat_map (fun spec => if Dict.mem (raw_type spec) PARAMETER_TYPES then []
                        else [UnknownParameterType (raw_type spec)]) specs.

(* kwargs.get(name), when it is not None *)
Definition supplied (kwargs : dict py_value) (name : string) : option py_value :=
  match Dict.get name kwargs with
  | Some PyNone | None => None
  | Some value => Some value
  end.

Definition formable (spec : RawParam) : Prop :=
  _ensure_identifier (raw_name spec) = Ok (sanitized_name spec).

Definition known_type (type : string) : Prop :=
  type = "string" \/ type = "uint32" \/ type = "uint64".

(* What one parameter contributes to the validated dictionary. *)
Definition validated_as (kwargs values : dict py_value) (p : Param) : Prop :=
  match supplied kwargs (p_name p) with
  | None => p_optional p = true /\ Dict.get (p_name p) values = None
  | Some value =>
      exists handler coerced,
        Dict.get (p_type p) PARAMETER_TYPES = Some handler /\
        handler value = Ok coerced /\
        Dict.get (p_name p) values = Some coerced
  end.

Definition example_params : list RawParam :=
  [ {| raw_name := "steam-id"; raw_type := "uint64"; raw_optional := false;
       raw_description := None |};
    {| raw_name := "key"; raw_type := "string"; raw_optional := false;
       raw_description := Some "access key" |};
    {| raw_name := "include_appinfo"; raw_type := "bool"; raw_optional := true;
       raw_description := Some "include name and icon" |} ].

Definition three_versions : InterfaceSpec :=
  {| is_name := "ISteamUserStats";
     is_methods := [example_method "GetSchemaForGame" 2;
                    example_method "GetSchemaForGame" 3;
                    example_method "GetSchemaForGame" 1;
                    example_method "GetGlobalStatsForGame" 1] |}.

Definition broken_listing : ApiList :=
  {| interfaces :=
       [news_interface;
        {| is_name := "IBroken";
           is_methods := [example_method "Get" 1; example_method "123" 1] |}] |}.

(** * Verified properties *)

(** ** Dictionaries *)

Section DictFacts.
Variable V : Type.
Implicit Types (d : dict V) (k : string) (v : V).

Lemma dict_get_set_eq d k v : Dict.get k (Dict.set k v d) = Some v.
Proof.
  induction d as [|[k' v'] d IH]; simpl.
  - now rewrite String.eqb_refl.
  - destruct (String.eqb_spec k k') as [->|N]; simpl.
    + now rewrite String.eqb_refl.
    + destruct (String.eqb_spec k k'); [contradiction|exact IH].
Qed.

Lemma dict_get_set_ne d k k' v :
  k <> k' -> Dict.get k (Dict.set k' v d) = Dict.get k d.
Proof.
  intros N. induction d as [|[k2 v2] d IH]; simpl.
  - destruct (String.eqb_spec k k'); [contradiction|reflexivity].
  - destruct (String.eqb_spec k' k2) as [->|N2]; simpl.
    + destruct (String.eqb_spec k k2); [contradiction|reflexivity].
    + destruct (String.eqb_spec k k2); [reflexivity|exact IH].
Qed.

Lemma dict_get_set d k k' v :
  Dict.get k (Dict.set k' v d) = if String.eqb k k' then Some v else Dict.get k d.
Proof.
  destruct (String.eqb_spec k k') as [->|N].
  - apply dict_get_set_eq.
  - now apply dict_get_set_ne.
Qed.

Lemma dict_get_none_keys d k : Dict.get k d = None <-> ~ In k (Dict.keys d).
Proof.
  induction d as [|[k' v'] d IH]; simpl; [tauto|].
  destruct (String.eqb_spec k k') as [->|N].
  - split; [discriminate|]. intros H. exfalso. auto.
  - rewrite IH. split; intros H; [intros [E|I]; [congruence|auto] | auto].
Qed.

Lemma dict_get_in d k v : Dict.get k d = Some v -> In (k, v) d.
Proof.
  induction d as [|[k' v'] d IH]; simpl; [discriminate|].
  destruct (String.eqb_spec k k') as [->|N]; [intros [= ->]; auto | auto].
Qed.

Lemma dict_in_get d k v : NoDup (Dict.keys d) -> In (k, v) d -> Dict.get k d = Some v.
Proof.
  induction d as [|[k' v'] d IH]; simpl; [tauto|].
  intros ND [E|I]; inversion ND as [|? ? Hn ND']; subst.
  - injection E as -> ->. now rewrite String.eqb_refl.
  - destruct (String.eqb_spec k k') as [->|N]; [|auto].
    exfalso. apply Hn. apply (in_map fst) in I. exact I.
Qed.

Lemma dict_keys_set d k v :
  Dict.keys (Dict.set k v d)
  = if Dict.mem k d then Dict.keys d else (Dict.keys d ++ [k])%list.
Proof.
  unfold Dict.mem. induction d as [|[k' v'] d IH]; simpl; [reflexivity|].
  destruct (String.eqb_spec k k') as [->|N]; simpl; [reflexivity|].
  rewrite IH. now destruct (Dict.get k d).
Qed.

Lemma dict_nodup_set d k v : NoDup (Dict.keys d) -> NoDup (Dict.keys (Dict.set k v d)).
Proof.
  intros ND. rewrite dict_keys_set. unfold Dict.mem.
  destruct (Dict.get k d) eqn:E; [exact ND|].
  apply dict_get_none_keys in E.
  apply NoDup_app_remove_l with (l := []). simpl.
  apply Permutation_NoDup with (l := k :: Dict.keys d).
  - apply Permutation_cons_append.
  - now constructor.
Qed.

Lemma dict_get_del_eq d k : NoDup (Dict.keys d) -> Dict.get k (Dict.del k d) = None.
Proof.
  induction d as [|[k' v'] d IH]; simpl; [reflexivity|].
  intros ND. inversion ND as [|? ? Hn ND']; subst.
  destruct (String.eqb_spec k k') as [->|N]; simpl.
  - now apply dict_get_none_keys.
  - destruct (String.eqb_spec k k'); [contradiction|auto].
Qed.

Lemma dict_get_del_ne d k k' : k <> k' -> Dict.get k (Dict.del k' d) = Dict.get k d.
Proof.
  intros N. induction d as [|[k2 v2] d IH]; simpl; [reflexivity|].
  destruct (String.eqb_spec k' k2) as [->|N2]; simpl.
  - destruct (String.eqb_spec k k2); [contradiction|reflexivity].
  - destruct (String.eqb_spec k k2); [reflexivity|exact IH].
Qed.

Lemma dict_keys_del_incl d k : incl (Dict.keys (Dict.del k d)) (Dict.keys d).
Proof.
  induction d as [|[k' v'] d IH]; simpl; [apply incl_refl|].
  destruct (String.eqb k k'); simpl.
  - apply incl_tl, incl_refl.
  - apply incl_cons; [now left|]. now apply incl_tl.
Qed.

Lemma dict_nodup_del d k : NoDup (Dict.keys d) -> NoDup (Dict.keys (Dict.del k d)).
Proof.
  induction d as [|[k' v'] d IH]; simpl; [auto|].
  intros ND. inversion ND as [|? ? Hn ND']; subst.
  destruct (String.eqb k k'); simpl; [exact ND'|].
  constructor; [|auto].
  intros I. apply Hn. now apply (dict_keys_del_incl d k).
Qed.

End DictFacts.

(** ** Identifier sanitisation *)

Lemma filter_chars_forall (p : ascii -> bool) (s : string) :
  string_forall p (filter_chars p s) = true.
Proof.
  induction s as [|c s IH]; simpl; [reflexivity|].
  destruct (p c) eqn:E; simpl; [rewrite E|]; exact IH.
Qed.

Lemma string_forall_app (p : ascii -> bool) (s t : string) :
  string_forall p (s ++ t) = (string_forall p s && string_forall p t)%bool.
Proof.
  induction s as [|c s IH]; simpl; [reflexivity|].
  rewrite IH. apply andb_assoc.
Qed.

(* What the loop returns: the text from its first letter or underscore on. *)
Lemma strip_leading_some (s id : string) :
  strip_leading s = Some id <->
  exists dropped c rest,
    s = dropped ++ id /\ id = String c rest /\
    is_identifier_start c = true /\
    string_forall (fun c => negb (is_identifier_start c)) dropped = true.
Proof.
  revert id. induction s as [|c s IH]; intros id; simpl.
  - split; [discriminate|].
    intros (d & c & rest & H & -> & _).
    destruct d; discriminate.
  - destruct (is_identifier_start c) eqn:E; simpl.
    + split.
      * intros [= <-]. exists "", c, s. simpl. auto.
      * intros (d & c' & rest & H & -> & Hc & Hd).
        destruct d as [|x d]; simpl in *.
        -- now rewrite H.
        -- injection H as -> _. rewrite E in Hd. discriminate.
    + rewrite IH. split.
      * intros (d & c' & rest & -> & -> & Hc & Hd).
        exists (String c d), c', rest. simpl. rewrite E. auto.
      * intros (d & c' & rest & H & -> & Hc & Hd).
        destruct d as [|x d]; simpl in *.
        -- injection H as -> _. congruence.
        -- injection H as -> ->. rewrite E in Hd. simpl in Hd.
           exists d, c', rest. auto.
Qed.

Lemma strip_leading_none (s : string) :
  strip_leading s = None <->
  string_forall (fun c => negb (is_identifier_start c)) s = true.
Proof.
  induction s as [|c s IH]; simpl; [tauto|].
  destruct (is_identifier_start c); simpl; [|exact IH].
  split; discriminate.
Qed.

(** C8. [_ensure_identifier] keeps exactly the characters of
    [A-Za-z0-9_], then drops leading characters up to the first letter or
    underscore: the result is the remaining text, and it starts with a letter
    or underscore; the call raises InvalidIdentifier exactly when no letter or
    underscore is left.  ["foo-bar!"] becomes ["foobar"], ["!!!"] is
    rejected, also as the name of a parameter or of a method. *)
Theorem ensure_identifier_sanitises :
  (forall name id,
      _ensure_identifier name = Ok id <->
      exists dropped c rest,
        filter_chars is_identifier_char name = dropped ++ id /\
        id = String c rest /\
        is_identifier_start c = true /\
        string_forall (fun c => negb (is_identifier_start c)) dropped = true) /\
  (forall name id,
      _ensure_identifier name = Ok id ->
      string_forall is_identifier_char id = true) /\
  (forall name e,
      _ensure_identifier name = Err e <->
      e = InvalidIdentifier name /\
      string_forall (fun c => negb (is_identifier_start c))
                    (filter_chars is_identifier_char name) = true) /\
  _ensure_identifier "foo-bar!" = Ok "foobar" /\
  _ensure_identifier "!!!" = Err (InvalidIdentifier "!!!") /\
  (forall unordered type optional description,
      init_param unordered {| raw_name := "!!!"; raw_type := type;
                              raw_optional := optional;
                              raw_description := description |}
      = (Err (InvalidIdentifier "!!!"), [])) /\
  (forall version httpmethod parameters,
      make_method {| ms_name := "!!!"; ms_version := version;
                     ms_httpmethod := httpmethod;
                     ms_parameters := parameters |}
      = (Err (InvalidIdentifier "!!!"), [])).
Proof.
  assert (Hok : forall name id,
      _ensure_identifier name = Ok id <->
      strip_leading (filter_chars is_identifier_char name) = Some id).
  { intros name id. unfold _ensure_identifier.
    destruct (strip_leading _); split; congruence. }
  split; [|split; [|split; [|repeat split]]].
  - intros name id. rewrite Hok. apply strip_leading_some.
  - intros name id H. apply Hok, strip_leading_some in H.
    destruct H as (d & c & rest & H & _).
    pose proof (filter_chars_forall is_identifier_char name) as F.
    rewrite H, string_forall_app in F.
    now apply andb_true_iff in F.
  - intros name e. unfold _ensure_identifier.
    destruct (strip_leading _) eqn:E.
    + split; [discriminate|]. intros [_ H].
      apply strip_leading_none in H. congruence.
    + apply strip_leading_none in E. split.
      * intros [= <-]. auto.
      * now intros [-> _].
Qed.

(** ** Bounded integer parameters *)

(** C9 (as amended). A value that [int()] converts to the integer [z] is
    accepted by [uint32] exactly when [0 <= z <= 4294967295] and by [uint64]
    exactly when [0 <= z <= 18446744073709551615], and the handler then
    returns [z]; outside the range it raises the out-of-bounds ValueError,
    for the bound that is exceeded. *)
Theorem uint_bounds (value : py_value) (z : Z) (H : py_int value = Ok z) :
  (0 <= z <= 4294967295 -> uint32 value = Ok (PyInt z)) /\
  (z > 4294967295 -> uint32 value = Err (OutOfBoundsValue UpperBound z "uint32")) /\
  (z < 0 -> uint32 value = Err (OutOfBoundsValue LowerBound z "uint32")) /\
  ((exists r, uint32 value = Ok r) <-> 0 <= z <= 4294967295) /\
  (0 <= z <= 18446744073709551615 -> uint64 value = Ok (PyInt z)) /\
  (z > 18446744073709551615 ->
   uint64 value = Err (OutOfBoundsValue UpperBound z "uint64")) /\
  (z < 0 -> uint64 value = Err (OutOfBoundsValue LowerBound z "uint64")) /\
  ((exists r, uint64 value = Ok r) <-> 0 <= z <= 18446744073709551615).
Proof.
  unfold uint32, uint64. rewrite H.
  destruct (Z.gtb_spec z 4294967295), (Z.ltb_spec z 0),
           (Z.gtb_spec z 18446744073709551615);
    repeat split; intros; try lia; try reflexivity;
    repeat match goal with
           | E : exists _, _ |- _ => destruct E
           end; try discriminate; eauto.
Qed.

(** C9, as stated, fails: the handlers test what [int()] makes of the
    value, not the value.  The float -0.5, which is [-1 * 2 ^ -1], lies
    below the range and is accepted as 0 by both handlers; the float
    4294967295.5, which is [8589934591 * 2 ^ -1], lies above the range of
    [uint32] and is accepted as 4294967295.  A value that [int()] refuses
    is not rejected with the out-of-bounds error either: [None] raises the
    TypeError of [int()]. *)
Lemma uint_bounds_fails :
  (-1 < 0 * 2 ^ 1 /\
   uint32 (PyFloat (-1) (-1) "-0.5") = Ok (PyInt 0) /\
   uint64 (PyFloat (-1) (-1) "-0.5") = Ok (PyInt 0)) /\
  (8589934591 > 4294967295 * 2 ^ 1 /\
   uint32 (PyFloat 8589934591 (-1) "4294967295.5") = Ok (PyInt 4294967295)) /\
  (uint32 PyNone = Err NoneCoercionError /\
   uint64 PyNone = Err NoneCoercionError /\
   exception_class NoneCoercionError = PyTypeError).
Proof. repeat split. Qed.

Lemma uint_bounds_witness :
  py_int (PyStr " 4294967296 ") = Ok 4294967296 /\
  uint32 (PyStr " 4294967296 ")
  = Err (OutOfBoundsValue UpperBound 4294967296 "uint32") /\
  uint64 (PyStr " 4294967296 ") = Ok (PyInt 4294967296).
Proof.
  assert (H : py_int (PyStr " 4294967296 ") = Ok 4294967296) by reflexivity.
  split; [exact H|].
  destruct (uint_bounds _ H) as (_ & U & _ & _ & V & _).
  split; [apply U; lia | apply V; lia].
Defined.

(** ** The request path *)

Section RequestFacts.
Variable Resp : Type.
Variable session_request : HttpRequest -> result string.

Implicit Types (self : API Resp) (w : World) (l : loc).

Lemma permitted_format (tag : string) :
  existsb (String.eqb tag) API_RESPONSE_FORMATS = true <-> In tag API_RESPONSE_FORMATS.
Proof.
  rewrite existsb_exists. split.
  - intros (x & I & E). apply String.eqb_eq in E. now subst.
  - intros I. exists tag. split; [exact I|apply String.eqb_refl].
Qed.

Lemma request_permitted self http_method interface method version l format w :
  In (format_tag (selected_decoder self format)) API_RESPONSE_FORMATS ->
  let decoder := selected_decoder self format in
  let rq := {| rq_method := http_method;
               rq_url := api_root ++ interface ++ "/" ++ method ++ "/v"
                                  ++ string_of_Z version ++ "/";
               rq_params := outgoing self decoder (store w l) |} in
  let out := request session_request self http_method interface method version
                     (Some l) format w in
  sent (snd out) = (sent w ++ [rq])%list /\
  next_loc (snd out) = next_loc w /\
  (forall l', store (snd out) l'
              = if Nat.eqb l' l then outgoing self decoder (store w l)
                else store w l') /\
  fst out = match session_request rq with
            | Ok text => decode decoder text
            | Err e => Err e
            end.
Proof.
  intros Hin decoder rq out. subst out. unfold request.
  fold (selected_decoder self format). fold decoder.
  apply permitted_format in Hin. fold decoder in Hin. rewrite Hin.
  simpl negb. cbv iota.
  set (w1 := modify l (Dict.set "format" (PyStr (format_tag decoder))) w).
  set (w2 := if Dict.mem "key" (store w1 l)
             then modify l (Dict.del "key") w1 else w1).
  set (w3 := match truthy_key (api_key self) with
             | Some key => modify l (Dict.set "key" (PyStr key)) w2
             | None => w2
             end).
  assert (E : (forall l', store w3 l'
                = if Nat.eqb l' l then outgoing self decoder (store w l)
                  else store w l')
              /\ next_loc w3 = next_loc w /\ sent w3 = sent w).
  { subst w3 w2 w1. unfold outgoing. simpl store. rewrite Nat.eqb_refl.
    destruct (truthy_key (api_key self)), (Dict.mem "key" _);
      simpl; rewrite ?Nat.eqb_refl; repeat split;
      intros l'; destruct (Nat.eqb l' l); reflexivity. }
  destruct E as (E & N & S).
  rewrite (E l), Nat.eqb_refl. fold rq.
  destruct (session_request rq); simpl; rewrite ?S, ?N; auto.
Qed.

Lemma outgoing_key self (format : Decoder Resp) (d : dict py_value) :
  NoDup (Dict.keys d) ->
  Dict.get "key" (outgoing self format d)
  = option_map PyStr (truthy_key (api_key self)).
Proof.
  intros ND. unfold outgoing.
  set (d1 := Dict.set "format" (PyStr (format_tag format)) d).
  assert (ND1 : NoDup (Dict.keys d1)) by now apply dict_nodup_set.
  assert (K : Dict.get "key" (if Dict.mem "key" d1 then Dict.del "key" d1 else d1) = None).
  { unfold Dict.mem. destruct (Dict.get "key" d1) eqn:E; [|exact E].
    now apply dict_get_del_eq. }
  destruct (truthy_key (api_key self)); simpl; [apply dict_get_set_eq|exact K].
Qed.

Lemma outgoing_format self (format : Decoder Resp) (d : dict py_value) :
  Dict.get "format" (outgoing self format d) = Some (PyStr (format_tag format)).
Proof.
  unfold outgoing.
  set (d1 := Dict.set "format" (PyStr (format_tag format)) d).
  assert (F : Dict.get "format" (if Dict.mem "key" d1 then Dict.del "key" d1 else d1)
              = Some (PyStr (format_tag format))).
  { destruct (Dict.mem "key" d1).
    - rewrite dict_get_del_ne by discriminate. apply dict_get_set_eq.
    - apply dict_get_set_eq. }
  destruct (truthy_key (api_key self)); [|exact F].
  rewrite dict_get_set_ne by discriminate. exact F.
Qed.

Lemma outgoing_other self (format : Decoder Resp) (d : dict py_value) (k : string) :
  k <> "format" -> k <> "key" ->
  Dict.get k (outgoing self format d) = Dict.get k d.
Proof.
  intros NF NK. unfold outgoing.
  set (d1 := Dict.set "format" (PyStr (format_tag format)) d).
  assert (F : Dict.get k (if Dict.mem "key" d1 then Dict.del "key" d1 else d1)
              = Dict.get k d).
  { destruct (Dict.mem "key" d1).
    - rewrite dict_get_del_ne by exact NK. now apply dict_get_set_ne.
    - now apply dict_get_set_ne. }
  destruct (truthy_key (api_key self)); [|exact F].
  rewrite dict_get_set_ne by exact NK. exact F.
Qed.

(** C5. When the caller's mapping holds a [key] entry, the one transport
    call that [request] makes carries, under [key], the client's own key, or
    no [key] entry at all when the client holds none: whatever the caller
    supplied is gone. *)
Theorem request_replaces_caller_key
    self http_method interface method version l format w caller_key
    (Hformat : In (format_tag (selected_decoder self format)) API_RESPONSE_FORMATS)
    (Hdict : NoDup (Dict.keys (store w l)))
    (Hkey : Dict.get "key" (store w l) = Some caller_key) :
  exists rq,
    sent (snd (request session_request self http_method interface method
                       version (Some l) format w))
    = (sent w ++ [rq])%list /\
    Dict.get "key" (rq_params rq)
    = match truthy_key (api_key self) with
      | Some key => Some (PyStr key)
      | None => None
      end /\
    (truthy_key (api_key self) = None -> ~ In "key" (Dict.keys (rq_params rq))) /\
    (forall value, Dict.get "key" (rq_params rq) = Some value ->
       exists key, truthy_key (api_key self) = Some key /\ value = PyStr key).
Proof.
  destruct (request_permitted self http_method interface method version l format w Hformat)
    as (S & _).
  eexists. split; [exact S|]. simpl rq_params.
  rewrite outgoing_key by exact Hdict.
  split; [now destruct (truthy_key _)|]. split.
  - intros E. apply dict_get_none_keys. rewrite outgoing_key by exact Hdict.
    now rewrite E.
  - intros value. destruct (truthy_key (api_key self)) as [k|]; simpl;
      [|discriminate]. intros [= <-]. eauto.
Qed.

Lemma request_rejected
    self http_method interface method version params format w :
  ~ In (format_tag (selected_decoder self format)) API_RESPONSE_FORMATS ->
  let out := request session_request self http_method interface method
                     version params format w in
  fst out = Err (InvalidDecoder (format_tag (selected_decoder self format))) /\
  sent (snd out) = sent w /\
  (forall l, (l < next_loc w)%nat -> store (snd out) l = store w l) /\
  (forall l, params = Some l -> forall l', store (snd out) l' = store w l').
Proof.
  intros Hformat.
  assert (E : existsb (String.eqb (format_tag (selected_decoder self format)))
                      API_RESPONSE_FORMATS = false).
  { destruct (existsb _ _) eqn:E; [|reflexivity].
    apply permitted_format in E. contradiction. }
  unfold request. fold (selected_decoder self format).
  destruct params as [l|]; [|unfold alloc]; rewrite E; cbn [negb fst snd sent store].
  - repeat split; auto.
  - repeat split; [| discriminate].
    intros l Hl. destruct (Nat.eqb_spec l (next_loc w)); [lia|reflexivity].
Qed.

Lemma request_returns_permitted
    self http_method interface method version params format w r :
  fst (request session_request self http_method interface method
               version params format w) = Ok r ->
  In (format_tag (selected_decoder self format)) API_RESPONSE_FORMATS.
Proof.
  intros H. apply permitted_format.
  destruct (existsb _ _) eqn:E; [reflexivity|].
  assert (N : ~ In (format_tag (selected_decoder self format)) API_RESPONSE_FORMATS).
  { intros I. apply permitted_format in I. congruence. }
  destruct (request_rejected self http_method interface method
              version params format w N) as (F & _).
  congruence.
Qed.

(** C6. A decoder whose declared format is not json, xml or vdf makes
    [request] raise InvalidDecoder: no transport call is made and no existing
    dictionary is touched. *)
Theorem request_rejects_unknown_format
    self http_method interface method version params format w
    (Hformat : ~ In (format_tag (selected_decoder self format)) API_RESPONSE_FORMATS) :
  let out := request session_request self http_method interface method
                     version params format w in
  fst out = Err (InvalidDecoder (format_tag (selected_decoder self format))) /\
  sent (snd out) = sent w /\
  (forall l, (l < next_loc w)%nat -> store (snd out) l = store w l) /\
  (forall l, params = Some l -> forall l', store (snd out) l' = store w l').
Proof. exact (request_rejected _ _ _ _ _ _ _ _ Hformat). Qed.

(** C10. [request] works on the caller's own dictionary.  A call that
    returns has passed the decoder check, and once that check is passed the
    dictionary the caller handed in holds [format] with the decoder's tag,
    holds [key] with the client's key when the client has one and no [key]
    otherwise, and is unchanged at every other entry; no other dictionary is
    touched. *)
Theorem request_mutates_params
    self http_method interface method version l format w
    (Hdict : NoDup (Dict.keys (store w l))) :
  let out := request session_request self http_method interface method
                     version (Some l) format w in
  let decoder := selected_decoder self format in
  ((exists r, fst out = Ok r) -> In (format_tag decoder) API_RESPONSE_FORMATS) /\
  (In (format_tag decoder) API_RESPONSE_FORMATS ->
   store (snd out) l = outgoing self decoder (store w l) /\
   Dict.get "format" (store (snd out) l) = Some (PyStr (format_tag decoder)) /\
   Dict.get "key" (store (snd out) l)
   = option_map PyStr (truthy_key (api_key self)) /\
   (forall k, k <> "format" -> k <> "key" ->
              Dict.get k (store (snd out) l) = Dict.get k (store w l)) /\
   (forall l', l' <> l -> store (snd out) l' = store w l')).
Proof.
  intros out decoder. split.
  - intros [r Hr]. exact (request_returns_permitted _ _ _ _ _ _ _ _ Hr).
  - intros Hformat.
    destruct (request_permitted self http_method interface method version l format w Hformat)
      as (_ & _ & St & _).
    fold out decoder in St.
    assert (E : store (snd out) l = outgoing self decoder (store w l)).
    { rewrite St, Nat.eqb_refl. reflexivity. }
    rewrite E. repeat split.
    + apply outgoing_format.
    + now apply outgoing_key.
    + intros k. apply outgoing_other.
    + intros l' N. rewrite St. now destruct (Nat.eqb_spec l' l).
Qed.

End RequestFacts.

(** ** The parameter table *)

Lemma bind_ok_inv {A B} (m : M A) (f : A -> M B) b log :
  bind m f = (Ok b, log) ->
  exists a l1 l2, m = (Ok a, l1) /\ f a = (Ok b, l2) /\ log = (l1 ++ l2)%list.
Proof.
  unfold bind. destruct m as [[a|e] l1]; [|discriminate].
  destruct (f a) as [r l2] eqn:E. intros [= -> <-].
  exists a, l1, l2. auto.
Qed.

Lemma string_ltb_trans a b c :
  String.ltb a b = true -> String.ltb b c = true -> String.ltb a c = true.
Proof.
  assert (L : forall x y, String.ltb x y = true <-> String_as_OT.lt x y).
  { intros x y. rewrite <- String_as_OT.cmp_lt.
    unfold String.ltb, String_as_OT.cmp.
    destruct (String.compare x y); split; congruence. }
  rewrite !L. apply String_as_OT.lt_trans.
Qed.

Lemma string_ltb_total a b :
  String.ltb a b = false -> a <> b -> String.ltb b a = true.
Proof.
  unfold String.ltb. rewrite (String.compare_antisym b a).
  destruct (String.compare a b) eqn:E; simpl; try congruence.
  apply String.compare_eq_iff in E. contradiction.
Qed.

Section Sorting.
Variable V : Type.
Implicit Types (kv : string * V) (l : list (string * V)).

Lemma insert_by_key_perm kv l : Permutation (insert_by_key kv l) (kv :: l).
Proof.
  induction l as [|kv' l IH]; simpl; [reflexivity|].
  destruct (String.ltb (fst kv) (fst kv')); [reflexivity|].
  rewrite IH. apply perm_swap.
Qed.

Lemma insert_by_key_sorted kv l :
  StronglySorted key_lt l -> ~ In (fst kv) (map fst l) ->
  StronglySorted key_lt (insert_by_key kv l).
Proof.
  induction l as [|kv' l IH]; simpl; intros S N.
  - repeat constructor.
  - inversion S as [|? ? S' F]; subst.
    destruct (String.ltb (fst kv) (fst kv')) eqn:E.
    + constructor; [exact S|]. constructor; [exact E|].
      eapply Forall_impl; [|exact F].
      intros x Hx. unfold key_lt in *. eapply string_ltb_trans; eassumption.
    + constructor; [apply IH; tauto|].
      eapply Permutation_Forall; [symmetry; apply insert_by_key_perm|].
      constructor; [|exact F].
      apply string_ltb_total; [exact E|]. intros Heq. apply N. now left.
Qed.

Lemma sorted_by_key_acc l : forall acc,
  StronglySorted key_lt acc -> NoDup (map fst (acc ++ l)) ->
  StronglySorted key_lt (fold_left (fun acc kv => insert_by_key kv acc) l acc) /\
  Permutation (fold_left (fun acc kv => insert_by_key kv acc) l acc) (acc ++ l).
Proof.
  induction l as [|kv l IH]; intros acc S ND; simpl.
  - rewrite app_nil_r. auto.
  - assert (P : Permutation (insert_by_key kv acc ++ l) (acc ++ kv :: l)).
    { rewrite insert_by_key_perm. simpl. apply Permutation_middle. }
    destruct (IH (insert_by_key kv acc)) as [S' P'].
    + apply insert_by_key_sorted; [exact S|].
      rewrite map_app in ND. simpl in ND.
      apply NoDup_remove_2 in ND. intros I. apply ND.
      apply in_or_app. now left.
    + eapply Permutation_NoDup; [|exact ND].
      apply Permutation_map. symmetry. exact P.
    + split; [exact S'|]. now rewrite P'.
Qed.

Lemma sorted_by_key_spec l :
  NoDup (map fst l) ->
  StronglySorted key_lt (sorted_by_key l) /\ Permutation (sorted_by_key l) l.
Proof.
  intros ND. apply (sorted_by_key_acc l (acc := [])); [constructor|exact ND].
Qed.

End Sorting.

Lemma forall_dict_set {V} (P : string * V -> Prop) (d : dict V) k v :
  Forall P d -> P (k, v) -> Forall P (Dict.set k v d).
Proof.
  intros F Pk. induction d as [|[k' v'] d IH]; simpl.
  - auto.
  - inversion F; subst.
    destruct (String.eqb_spec k k') as [->|N]; constructor; auto.
Qed.

Lemma init_param_ok unordered spec d log :
  init_param unordered spec = (Ok d, log) -> table_ok unordered -> table_ok d.
Proof.
  unfold init_param. intros H [ND F].
  destruct (String.eqb (raw_name spec) "key"); [injection H as <- _; now split|].
  apply bind_ok_inv in H. destruct H as (name & l1 & l2 & _ & H & _).
  destruct (Dict.mem name unordered); [discriminate|].
  apply bind_ok_inv in H. destruct H as (type & l3 & l4 & _ & H & _).
  injection H as <- _. split.
  - now apply dict_nodup_set.
  - now apply forall_dict_set.
Qed.

Lemma for_each_init_ok specs : forall unordered d log,
  for_each init_param specs unordered = (Ok d, log) ->
  table_ok unordered -> table_ok d.
Proof.
  induction specs as [|spec specs IH]; simpl; intros unordered d log H T.
  - injection H as <- _. exact T.
  - apply bind_ok_inv in H. destruct H as (d1 & l1 & l2 & H1 & H2 & _).
    eapply IH; [exact H2|]. eapply init_param_ok; eassumption.
Qed.

Lemma split_parameters_filter params :
  split_parameters params
  = (filter p_optional params, filter (fun p => negb (p_optional p)) params).
Proof.
  unfold split_parameters.
  enough (G : forall o m,
    fold_left (fun (acc : list Param * list Param) param =>
                 let (optional, mandatory) := acc in
                 if p_optional param then ((optional ++ [param])%list, mandatory)
                 else (optional, (mandatory ++ [param])%list)) params (o, m)
    = ((o ++ filter p_optional params)%list,
       (m ++ filter (fun p => negb (p_optional p)) params)%list))
    by apply (G [] []).
  induction params as [|p params IH]; intros o m; simpl.
  - now rewrite !app_nil_r.
  - destruct (p_optional p); simpl; rewrite IH, <- app_assoc; reflexivity.
Qed.

Lemma strongly_sorted_filter {A} (R : A -> A -> Prop) (f : A -> bool) l :
  StronglySorted R l -> StronglySorted R (filter f l).
Proof.
  induction 1 as [|a l S IH F]; simpl; [constructor|].
  destruct (f a); [|exact IH].
  constructor; [exact IH|].
  apply Forall_forall. intros x I. apply filter_In in I.
  rewrite Forall_forall in F. now apply F.
Qed.

Lemma filter_partition_perm {A} (f : A -> bool) l :
  Permutation (filter (fun x => negb (f x)) l ++ filter f l) l.
Proof.
  induction l as [|a l IH]; simpl; [reflexivity|].
  destruct (f a); simpl.
  - rewrite <- Permutation_middle. now constructor.
  - now constructor.
Qed.

(* The parameter table is sorted by name, without repetition. *)
Lemma parameters_sorted specs args log :
  MethodParameters_init specs = (Ok args, log) ->
  StronglySorted param_lt (Dict.values args) /\ table_ok args.
Proof.
  unfold MethodParameters_init. intros H.
  apply bind_ok_inv in H. destruct H as (unordered & l1 & l2 & H & R & _).
  injection R as <- _.
  assert (T : table_ok unordered).
  { eapply for_each_init_ok; [exact H|]. split; constructor. }
  destruct T as [ND F].
  destruct (sorted_by_key_spec (Dict.items unordered) ND) as [S P].
  assert (F' : Forall (fun kv => p_name (snd kv) = fst kv)
                      (sorted_by_key (Dict.items unordered))).
  { eapply Permutation_Forall; [symmetry; exact P|exact F]. }
  split; [|split].
  - revert S F'. generalize (sorted_by_key (Dict.items unordered)).
    induction l as [|kv l IH]; simpl; intros S F'; [constructor|].
    inversion S as [|? ? S' Fl]; inversion F' as [|? ? E F'']; subst.
    constructor; [now apply IH|].
    apply Forall_forall. intros q Hq. apply in_map_iff in Hq.
    destruct Hq as (kv' & <- & I).
    rewrite Forall_forall in Fl, F''. unfold param_lt.
    rewrite E, (F'' kv' I). now apply Fl.
  - eapply Permutation_NoDup; [|exact ND].
    apply Permutation_map. symmetry. exact P.
  - exact F'.
Qed.

(* Mandatory parameters first, then the optional ones, each group sorted. *)
Lemma signature_mandatory_first specs args log :
  MethodParameters_init specs = (Ok args, log) ->
  exists mandatory optional,
    signature_items args
    = ("self" :: map p_name mandatory
              ++ map (fun p => (p_name p ++ "=None")%string) optional)%list /\
    Forall (fun p => p_optional p = false) mandatory /\
    Forall (fun p => p_optional p = true) optional /\
    StronglySorted param_lt mandatory /\
    StronglySorted param_lt optional /\
    Permutation (mandatory ++ optional) (Dict.values args).
Proof.
  intros H. destruct (parameters_sorted _ H) as [S _].
  exists (filter (fun p => negb (p_optional p)) (Dict.values args)),
         (filter p_optional (Dict.values args)).
  unfold signature_items. rewrite split_parameters_filter.
  repeat split.
  - apply Forall_forall. intros p I. apply filter_In in I.
    destruct I as [_ I]. now apply negb_true_iff in I.
  - apply Forall_forall. intros p I. apply filter_In in I. tauto.
  - now apply strongly_sorted_filter.
  - now apply strongly_sorted_filter.
  - apply filter_partition_perm.
Qed.

(** C7. A method synthesised from the parameters [a] (optional string) and
    [b] (mandatory uint32), listed in either order, has the signature
    [self, b, a=None]; called with [b=5] alone it validates to [{b: 5}] and
    hands that to the request; validated or called with neither argument, or
    with [b=None], it raises the TypeError for the missing argument [b].
    Whatever the parameter descriptions are, the signature of the table
    built from them lists, after [self], all the mandatory parameters in
    increasing name order, then all the optional ones, each with [=None],
    in increasing name order. *)
Theorem method_signature_and_validation spec method log da db
    (Hparams : ms_parameters spec = [param_a da; param_b db] \/
               ms_parameters spec = [param_b db; param_a da])
    (Hmake : make_method spec = (Ok method, log)) :
  signature (m_args method) = "self, b, a=None" /\
  validate (m_args method) [("b", PyInt 5)] = Ok [("b", PyInt 5)] /\
  method_call method [("b", PyInt 5)]
  = Ok (ms_httpmethod spec, m_name method, ms_version spec, [("b", PyInt 5)]) /\
  validate (m_args method) [] = Err (MissingMandatoryArgument "b") /\
  method_call method [] = Err (MissingPositionalArgument "b") /\
  method_call method [("b", PyNone)] = Err (MissingMandatoryArgument "b") /\
  exception_class (MissingMandatoryArgument "b") = PyTypeError /\
  exception_class (MissingPositionalArgument "b") = PyTypeError /\
  (forall specs args log',
      MethodParameters_init specs = (Ok args, log') ->
      exists mandatory optional,
        signature_items args
        = ("self" :: map p_name mandatory
                  ++ map (fun p => (p_name p ++ "=None")%string) optional)%list /\
        signature args
        = String.concat ", "
            ("self" :: map p_name mandatory
                    ++ map (fun p => (p_name p ++ "=None")%string) optional)%list /\
        Forall (fun p => p_optional p = false) mandatory /\
        Forall (fun p => p_optional p = true) optional /\
        StronglySorted param_lt mandatory /\
        StronglySorted param_lt optional /\
        Permutation (mandatory ++ optional) (Dict.values args)).
Proof.
  assert (G : exists args l,
             MethodParameters_init (ms_parameters spec) = (Ok args, l) /\
             m_args method = args /\
             m_httpmethod method = ms_httpmethod spec /\
             m_version method = ms_version spec).
  { unfold make_method in Hmake.
    apply bind_ok_inv in Hmake. destruct Hmake as (name & l1 & l2 & _ & H & _).
    apply bind_ok_inv in H. destruct H as (args & l3 & l4 & Hargs & H & _).
    apply bind_ok_inv in H. destruct H as (u & l5 & l6 & _ & H & _).
    injection H as <- _. exists args, l3. simpl. auto. }
  destruct G as (args & l & Hargs & Eargs & Ehttp & Ever).
  assert (Etable : args =
            [("a", {| p_name := "a"; p_type := "string"; p_optional := true;
                      p_description := match da with Some d => d | None => "" end |});
             ("b", {| p_name := "b"; p_type := "uint32"; p_optional := false;
                      p_description := match db with Some d => d | None => "" end |})]).
  { destruct Hparams as [E|E]; rewrite E in Hargs;
      vm_compute in Hargs; now injection Hargs as <- _. }
  split; [|split; [|split; [|split; [|split; [|split; [|split; [|split]]]]]]];
    try (unfold method_call; rewrite ?Ehttp, ?Ever, Eargs, Etable; reflexivity);
    try (rewrite Eargs, Etable; reflexivity); try reflexivity.
  intros specs args' log' H'.
  destruct (signature_mandatory_first _ H') as (mandatory & optional & E & R).
  exists mandatory, optional. split; [exact E|]. split; [|exact R].
  unfold signature. now rewrite E.
Qed.

(** ** Version resolution *)

Lemma for_each_resolve versions specs : forall st,
  for_each (resolve_spec versions) specs st
  = (meths <- make_methods specs ;;
     ret (fold_left (resolve_method versions) meths st)).
Proof.
  induction specs as [|spec specs IH]; intros st; simpl; [reflexivity|].
  unfold resolve_spec at 1.
  destruct (make_method spec) as [[m|e] l]; simpl; [|reflexivity].
  rewrite IH. rewrite app_nil_r.
  destruct (make_methods specs) as [[ms|e] l']; simpl; [|reflexivity].
  now rewrite !app_nil_r.
Qed.

Lemma resolve_method_step versions st m :
  resolution_ok st ->
  resolution_ok (resolve_method versions st m) /\
  forall name,
    Dict.get name (methods (resolve_method versions st m))
    = select_step versions name (Dict.get name (methods st)) m /\
    Dict.get name (max_versions (resolve_method versions st m))
    = latest_step name (Dict.get name (max_versions st)) m.
Proof.
  intros [ND K]. unfold resolve_method, select_step, latest_step, resolution_ok.
  destruct (Dict.get (m_name m) versions) as [p|] eqn:Pin.
  - (* pinned *)
    cbn [methods max_versions]. split; [split|].
    + destruct (m_version m =? p); [now apply dict_nodup_set|exact ND].
    + intros k c H. rewrite dict_get_set.
      destruct (String.eqb_spec k (m_name m)) as [->|N].
      * destruct (m_version m =? p) eqn:E.
        -- rewrite dict_get_set_eq in H. injection H as <-.
           split; [reflexivity|]. eexists. split; [reflexivity|lia].
        -- destruct (K _ _ H) as (Hn & latest & Hl & Hle).
           split; [exact Hn|]. eexists. split; [reflexivity|].
           rewrite Hl. lia.
      * apply K.
        destruct (m_version m =? p); [now rewrite dict_get_set_ne in H|exact H].
    + intros name. rewrite dict_get_set.
      rewrite (String.eqb_sym name (m_name m)).
      destruct (String.eqb_spec (m_name m) name) as [<-|N].
      * rewrite Pin. split; [|reflexivity].
        destruct (m_version m =? p); [apply dict_get_set_eq|reflexivity].
      * split; [|reflexivity].
        destruct (m_version m =? p); [|reflexivity].
        apply dict_get_set_ne. congruence.
  - (* not pinned *)
    destruct (Dict.get (m_name m) (methods st)) as [c|] eqn:Cur.
    + destruct (K _ _ Cur) as (Hn & latest & Hl & Hle).
      destruct (Z.ltb_spec (m_version m) (m_version c)) as [Lt|Ge];
        cbn [methods max_versions]; rewrite ?Hn, ?Hl.
      * split; [split|].
        -- now apply dict_nodup_set.
        -- intros k c'. rewrite !dict_get_set.
           destruct (String.eqb_spec k (m_name m)) as [->|N]; [|apply K].
           intros [= <-]. split; [exact Hn|].
           eexists. split; [reflexivity|lia].
        -- intros name. rewrite !dict_get_set.
           rewrite (String.eqb_sym name (m_name m)).
           destruct (String.eqb_spec (m_name m) name) as [<-|N]; [|auto].
           rewrite Pin, Cur, Hl.
           destruct (Z.ltb_spec (m_version m) (m_version c)); [|lia].
           split; [reflexivity|]. f_equal. lia.
      * split; [split|].
        -- now apply dict_nodup_set.
        -- intros k c'. rewrite !dict_get_set.
           destruct (String.eqb_spec k (m_name m)) as [->|N]; [|apply K].
           intros [= <-]. split; [reflexivity|].
           eexists. split; [reflexivity|lia].
        -- intros name. rewrite !dict_get_set.
           rewrite (String.eqb_sym name (m_name m)).
           destruct (String.eqb_spec (m_name m) name) as [<-|N]; [|auto].
           rewrite Pin, Cur, Hl.
           destruct (Z.ltb_spec (m_version m) (m_version c)); [lia|].
           split; reflexivity.
    + cbn [methods max_versions]. split; [split|].
      * now apply dict_nodup_set.
      * intros k c'. rewrite !dict_get_set.
        destruct (String.eqb_spec k (m_name m)) as [->|N]; [|apply K].
        intros [= <-]. split; [reflexivity|].
        eexists. split; [reflexivity|lia].
      * intros name. rewrite !dict_get_set.
        rewrite (String.eqb_sym name (m_name m)).
        destruct (String.eqb_spec (m_name m) name) as [<-|N]; [|auto].
        rewrite Pin, Cur. split; reflexivity.
Qed.

Lemma resolve_fold versions meths : forall st,
  resolution_ok st ->
  resolution_ok (fold_left (resolve_method versions) meths st) /\
  forall name,
    Dict.get name (methods (fold_left (resolve_method versions) meths st))
    = fold_left (select_step versions name) meths (Dict.get name (methods st)) /\
    Dict.get name (max_versions (fold_left (resolve_method versions) meths st))
    = fold_left (latest_step name) meths (Dict.get name (max_versions st)).
Proof.
  induction meths as [|m meths IH]; intros st Hok; simpl; [auto|].
  destruct (resolve_method_step versions m Hok) as [Hok' Hstep].
  destruct (IH _ Hok') as [Hok'' Hfold].
  split; [exact Hok''|]. intros name.
  destruct (Hfold name) as [E1 E2], (Hstep name) as [S1 S2].
  now rewrite E1, E2, S1, S2.
Qed.

Lemma no_resolution_ok : resolution_ok no_resolution.
Proof. split; [constructor|discriminate]. Qed.

Section Selection.
Variable versions : dict Z.
Variable name : string.

Lemma select_named meths : forall current,
  fold_left (select_step versions name) meths current
  = fold_left (select_step versions name) (named name meths) current.
Proof.
  induction meths as [|m meths IH]; intros current; simpl; [reflexivity|].
  destruct (String.eqb (m_name m) name) eqn:E; simpl; rewrite IH.
  - reflexivity.
  - unfold select_step at 2. now rewrite E.
Qed.


Lemma named_spec meths m :
  In m (named name meths) <-> In m meths /\ m_name m = name.
Proof.
  unfold named. rewrite filter_In. now rewrite String.eqb_eq.
Qed.

(* Whatever is selected was either there before or is one of the methods. *)
Lemma select_origin meths : forall current m,
  fold_left (select_step versions name) meths current = Some m ->
  current = Some m \/ (In m meths /\ m_name m = name).
Proof.
  induction meths as [|x meths IH]; intros current m; simpl; [auto|].
  intros H. destruct (IH _ _ H) as [E|[I N]]; [|now right; auto].
  unfold select_step in E.
  destruct (String.eqb_spec (m_name x) name) as [Hn|]; [|auto].
  destruct (Dict.get name versions).
  - destruct (m_version x =? z); [injection E as <-; auto | auto].
  - destruct current as [c|].
    + destruct (m_version x <? m_version c); injection E as <-; auto.
    + injection E as <-. auto.
Qed.

Lemma select_absent meths current :
  named name meths = [] ->
  fold_left (select_step versions name) meths current = current.
Proof. intros E. now rewrite select_named, E. Qed.

Section Pinned.
Variable pinned : Z.
Hypothesis Hpin : Dict.get name versions = Some pinned.

Lemma select_pinned_version meths : forall current m,
  fold_left (select_step versions name) meths current = Some m ->
  (forall c, current = Some c -> m_version c = pinned) ->
  m_version m = pinned.
Proof.
  induction meths as [|x meths IH]; intros current m; simpl.
  - intros -> H. now apply H.
  - intros H Hc. apply (IH _ _ H). intros c. unfold select_step.
    rewrite Hpin.
    destruct (String.eqb (m_name x) name); [|apply Hc].
    destruct (Z.eqb_spec (m_version x) pinned); [|apply Hc].
    now intros [= <-].
Qed.

Lemma select_pinned_found meths : forall current,
  In pinned (versions_declared name meths) \/
  (exists c, current = Some c) ->
  exists m, fold_left (select_step versions name) meths current = Some m.
Proof.
  unfold versions_declared.
  induction meths as [|x meths IH]; intros current; simpl.
  - intros [[]|H]; exact H.
  - intros H. apply IH. unfold select_step. rewrite Hpin.
    destruct (String.eqb (m_name x) name); simpl in H.
    + destruct (Z.eqb_spec (m_version x) pinned).
      * right. eauto.
      * destruct H as [[E|I]|C]; [contradiction|now left|now right].
    + exact H.
Qed.


End Pinned.

Section Unpinned.
Hypothesis Hpin : Dict.get name versions = None.

Lemma select_unpinned_found meths : forall current,
  named name meths <> [] \/ (exists c, current = Some c) ->
  exists m, fold_left (select_step versions name) meths current = Some m.
Proof.
  induction meths as [|x meths IH]; intros current; simpl.
  - intros [H|H]; [contradiction|exact H].
  - intros H. apply IH. unfold select_step. rewrite Hpin.
    destruct (String.eqb (m_name x) name).
    + right. destruct current as [c|]; [|eauto].
      destruct (m_version x <? m_version c); eauto.
    + exact H.
Qed.

(* Without a pin the selected method carries the highest version. *)
Lemma select_unpinned_highest meths : forall current m,
  fold_left (select_step versions name) meths current = Some m ->
  (forall c, current = Some c -> m_version c <= m_version m) /\
  (forall x, In x (named name meths) -> m_version x <= m_version m).
Proof.
  induction meths as [|x meths IH]; intros current m; simpl.
  - intros ->. split; [intros c [= ->]; lia|tauto].
  - intros H. destruct (IH _ _ H) as [Hc Hx].
    unfold select_step in Hc. rewrite Hpin in Hc.
    destruct (String.eqb (m_name x) name); simpl; [|auto].
    split.
    + intros c ->.
      destruct (Z.ltb_spec (m_version x) (m_version c)).
      * now apply Hc.
      * specialize (Hc x eq_refl). lia.
    + intros y [<-|I]; [|now apply Hx].
      destruct current as [c|]; [|now apply Hc].
      destruct (Z.ltb_spec (m_version x) (m_version c)).
      * specialize (Hc c eq_refl). lia.
      * now apply Hc.
Qed.

End Unpinned.

(* The latest version recorded for a name bounds every version declared
   under it, and is never negative. *)
Lemma latest_bounds meths : forall latest v,
  fold_left (latest_step name) meths latest = Some v ->
  (forall l, latest = Some l -> l <= v) /\
  (forall x, In x (named name meths) -> m_version x <= v) /\
  (latest = None -> 0 <= v).
Proof.
  induction meths as [|x meths IH]; intros latest v; simpl.
  - intros ->. repeat split; [intros l [= ->]; lia|tauto|discriminate].
  - intros H. destruct (IH _ _ H) as (Hl & Hx & Hn).
    unfold latest_step in Hl, Hn.
    destruct (String.eqb (m_name x) name); simpl.
    + specialize (Hl _ eq_refl). repeat split.
      * intros l ->. lia.
      * intros y [<-|I]; [lia|now apply Hx].
      * intros ->. lia.
    + repeat split; [exact Hl|exact Hx|exact Hn].
Qed.

Lemma latest_found meths : forall latest,
  named name meths <> [] \/ (exists l, latest = Some l) ->
  exists v, fold_left (latest_step name) meths latest = Some v.
Proof.
  induction meths as [|x meths IH]; intros latest; simpl.
  - intros [H|H]; [contradiction|exact H].
  - intros H. apply IH. unfold latest_step.
    destruct (String.eqb (m_name x) name); [right; eauto|exact H].
Qed.

End Selection.

Lemma dict_get_update {V} (other : dict V) : forall (d : dict V) k,
  NoDup (Dict.keys other) ->
  Dict.get k (Dict.update d other)
  = match Dict.get k other with Some v => Some v | None => Dict.get k d end.
Proof.
  unfold Dict.update.
  induction other as [|[k' v'] other IH]; intros d k ND; simpl; [reflexivity|].
  inversion ND as [|? ? Hn ND']; subst.
  rewrite IH by exact ND'.
  destruct (String.eqb_spec k k') as [->|N].
  - apply dict_get_none_keys in Hn. rewrite Hn. apply dict_get_set_eq.
  - destruct (Dict.get k other); [reflexivity|]. now apply dict_get_set_ne.
Qed.

Lemma dict_get_map {V W} (f : V -> W) (d : dict V) k :
  Dict.get k (map (fun kv => (fst kv, f (snd kv))) d) = option_map f (Dict.get k d).
Proof.
  induction d as [|[k' v'] d IH]; simpl; [reflexivity|].
  destruct (String.eqb k k'); [reflexivity|exact IH].
Qed.

Lemma dict_keys_map {V W} (f : V -> W) (d : dict V) :
  Dict.keys (map (fun kv => (fst kv, f (snd kv))) d) = Dict.keys d.
Proof. unfold Dict.keys. rewrite map_map. reflexivity. Qed.

Lemma dict_values_get {V} (d : dict V) v :
  NoDup (Dict.keys d) -> In v (Dict.values d) -> exists k, Dict.get k d = Some v.
Proof.
  intros ND I. apply in_map_iff in I. destruct I as ([k v'] & <- & I).
  exists k. now apply dict_in_get.
Qed.

Lemma warn_stale_loop interface latest meths :
  (forall c, In c meths -> exists v, Dict.get (m_name c) latest = Some v) ->
  for_each (warn_stale interface latest) meths tt
  = (Ok tt, flat_map (stale_warning interface latest) meths).
Proof.
  induction meths as [|c meths IH]; intros H; simpl; [reflexivity|].
  destruct (H c (or_introl eq_refl)) as [v Hv].
  unfold warn_stale at 1, stale_warning at 1. rewrite Hv.
  destruct (m_version c <? v); cbn [bind warn ret];
    rewrite IH by (intros; apply H; now right); reflexivity.
Qed.

(* The namespace handed to [type]: a bound method under its name, else the
   two attributes that [make_interface] puts in first. *)
Lemma attrs_get spec st n :
  resolution_ok st ->
  Dict.get n (i_attrs (interface_of spec st))
  = match Dict.get n (methods st) with
    | Some m => Some (AttrMethod m)
    | None => Dict.get n [("name", AttrName (is_name spec)); ("__iter__", AttrIter)]
    end.
Proof.
  intros [ND _]. unfold interface_of. cbn [i_attrs].
  rewrite dict_get_update by (rewrite dict_keys_map; exact ND).
  rewrite dict_get_map. unfold Dict.items.
  now destruct (Dict.get n (methods st)).
Qed.

Lemma type_new_spec spec st :
  resolution_ok st ->
  type_new (is_name spec) (i_attrs (interface_of spec st)) = Ok tt <->
  creatable (is_name spec) (methods st).
Proof.
  intros Hok. unfold type_new, creatable, Dict.mem, type_reads.
  rewrite !(attrs_get spec _ Hok). cbn [Dict.get String.eqb Ascii.eqb Bool.eqb].
  destruct (Dict.get "__slots__" (methods st)) eqn:E1;
    [split; [discriminate|intros [_ H]; specialize (H "__slots__"); simpl in H;
                          rewrite H in E1 by auto; discriminate]|].
  destruct (string_forall _ (is_name spec)); simpl;
    [|split; [discriminate|intros [H _]; discriminate]].
  destruct (Dict.get "__qualname__" (methods st)) eqn:E2;
    [split; [discriminate|intros [_ H]; specialize (H "__qualname__"); simpl in H;
                          rewrite H in E2 by auto; discriminate]|].
  destruct (Dict.get "__classcell__" (methods st)) eqn:E3;
    [split; [discriminate|intros [_ H]; specialize (H "__classcell__"); simpl in H;
                          rewrite H in E3 by auto; discriminate]|].
  split; [|reflexivity]. intros _. split; [reflexivity|].
  intros n [<-|[<-|[<-|[]]]]; assumption.
Qed.

(* What [make_interface] does once the descriptions are synthesised: the
   warnings of the second loop are out before [type] is called. *)
Lemma make_interface_run spec versions meths log :
  make_methods (is_methods spec) = (Ok meths, log) ->
  make_interface spec versions
  = (match type_new (is_name spec)
             (i_attrs (interface_of spec (resolved versions meths))) with
     | Ok _ => Ok (interface_of spec (resolved versions meths))
     | Err e => Err e
     end,
     (log ++ stale_warnings (is_name spec) (resolved versions meths))%list).
Proof.
  intros H. unfold make_interface. rewrite for_each_resolve, H.
  cbn [bind ret]. rewrite app_nil_r. fold (resolved versions meths).
  destruct (resolve_fold versions meths no_resolution_ok) as [[ND K] _].
  fold (resolved versions meths) in ND, K.
  rewrite warn_stale_loop.
  - cbn [bind ret lift]. unfold interface_of. cbn [i_attrs].
    destruct (type_new _ _) as [[]|e]; cbn [bind ret]; now rewrite ?app_nil_r.
  - intros c I. destruct (@dict_values_get _ (methods (resolved versions meths)) c ND I) as [k Hk].
    destruct (K _ _ Hk) as (<- & latest & Hl & _). eauto.
Qed.

Lemma make_interface_ok spec versions meths log :
  make_methods (is_methods spec) = (Ok meths, log) ->
  creatable (is_name spec) (methods (resolved versions meths)) ->
  make_interface spec versions
  = (Ok (interface_of spec (resolved versions meths)),
     (log ++ stale_warnings (is_name spec) (resolved versions meths))%list).
Proof.
  intros H C. rewrite (make_interface_run spec versions H).
  apply type_new_spec in C; [now rewrite C|].
  apply (resolve_fold versions meths no_resolution_ok).
Qed.

(* [type] refuses the class: the interface is not made, the warnings are. *)
Lemma make_interface_refused spec versions meths log :
  make_methods (is_methods spec) = (Ok meths, log) ->
  ~ creatable (is_name spec) (methods (resolved versions meths)) ->
  exists e,
    make_interface spec versions
    = (Err e, (log ++ stale_warnings (is_name spec) (resolved versions meths))%list).
Proof.
  intros H C. rewrite (make_interface_run spec versions H).
  destruct (type_new _ _) as [[]|e] eqn:E; [|eauto].
  exfalso. apply C. apply (type_new_spec spec); [|exact E].
  apply (resolve_fold versions meths no_resolution_ok).
Qed.

Lemma make_interface_err spec versions e log :
  make_methods (is_methods spec) = (Err e, log) ->
  make_interface spec versions = (Err e, log).
Proof.
  intros H. unfold make_interface. now rewrite for_each_resolve, H.
Qed.

Lemma bound_method_of spec st name :
  resolution_ok st ->
  bound_method (interface_of spec st) name = Dict.get name (methods st).
Proof.
  intros [ND _]. unfold bound_method, interface_of. cbn [i_attrs].
  rewrite dict_get_update by (rewrite dict_keys_map; exact ND).
  rewrite dict_get_map. unfold Dict.items.
  destruct (Dict.get name (methods st)); [reflexivity|]. simpl.
  destruct (String.eqb name "name"); [reflexivity|].
  destruct (String.eqb name "__iter__"); reflexivity.
Qed.

(* What a synthesised interface binds under a name, read off the methods. *)
Lemma bound_method_resolved spec versions meths name :
  bound_method (interface_of spec (resolved versions meths)) name
  = fold_left (select_step versions name) meths None.
Proof.
  destruct (resolve_fold versions meths no_resolution_ok) as [Hok H].
  fold (resolved versions meths) in Hok, H.
  rewrite bound_method_of by exact Hok.
  now destruct (H name) as [-> _].
Qed.

(* A stale-pin warning names a bound method and its recorded latest version. *)
Lemma stale_warnings_spec interface versions meths w :
  In w (stale_warnings interface (resolved versions meths)) <->
  exists c latest,
    fold_left (select_step versions (m_name c)) meths None = Some c /\
    fold_left (latest_step (m_name c)) meths None = Some latest /\
    m_version c < latest /\
    w = StaleVersionPinned interface (m_name c) (m_version c) latest.
Proof.
  destruct (resolve_fold versions meths no_resolution_ok) as [[ND K] H].
  fold (resolved versions meths) in ND, K, H.
  unfold stale_warnings. rewrite in_flat_map. split.
  - intros (c & I & Hw). destruct (@dict_values_get _ (methods (resolved versions meths)) c ND I) as [k Hk].
    destruct (K _ _ Hk) as (<- & latest & Hl & _).
    unfold stale_warning in Hw. rewrite Hl in Hw.
    destruct (Z.ltb_spec (m_version c) latest); [|contradiction].
    destruct Hw as [<-|[]]. exists c, latest.
    destruct (H (m_name c)) as [E1 E2].
    cbn [no_resolution methods max_versions Dict.get] in E1, E2.
    rewrite <- E1, <- E2. auto.
  - intros (c & latest & Hc & Hl & Lt & ->).
    destruct (H (m_name c)) as [E1 E2].
    cbn [no_resolution methods max_versions Dict.get] in E1, E2.
    rewrite <- E1 in Hc. rewrite <- E2 in Hl.
    exists c. split.
    + apply in_map_iff. exists (m_name c, c). split; [reflexivity|].
      now apply dict_get_in.
    + unfold stale_warning. rewrite Hl.
      destruct (Z.ltb_spec (m_version c) latest); [now left|lia].
Qed.

(** *** Where warnings come from *)










(** ** The catalogue and [pin_versions] *)

Lemma make_interface_fst spec versions interface :
  fst (make_interface spec versions) = Ok interface ->
  interface = interface_of spec (resolved versions (methods_of spec)) /\
  (exists log, make_methods (is_methods spec) = (Ok (methods_of spec), log)) /\
  creatable (is_name spec) (methods (resolved versions (methods_of spec))).
Proof.
  unfold methods_of.
  destruct (make_methods (is_methods spec)) as [[meths|e] log] eqn:E.
  - rewrite (make_interface_run spec versions E). cbn [fst].
    destruct (type_new _ _) as [[]|e] eqn:T; [|discriminate].
    intros [= <-]. split; [reflexivity|]. split; [eauto|].
    apply (type_new_spec spec); [|exact T].
    apply (resolve_fold versions meths no_resolution_ok).
  - rewrite (make_interface_err spec versions E). discriminate.
Qed.

Lemma make_interface_of spec versions :
  (exists log, make_methods (is_methods spec) = (Ok (methods_of spec), log)) ->
  creatable (is_name spec) (methods (resolved versions (methods_of spec))) ->
  fst (make_interface spec versions)
  = Ok (interface_of spec (resolved versions (methods_of spec))).
Proof.
  intros [log E] C. now rewrite (make_interface_ok spec versions E C).
Qed.

Lemma module_setattr_spec name value module :
  module_setattr name value module
  = Ok (Dict.set name value module) <-> ~ In name module_reserved.
Proof.
  unfold module_setattr, module_reserved.
  destruct (String.eqb_spec name "__dict__") as [->|N1];
    [split; [discriminate|intros H; exfalso; apply H; simpl; auto]|].
  destruct (String.eqb_spec name "__class__") as [->|N2];
    [split; [discriminate|intros H; exfalso; apply H; simpl; auto]|].
  split; [|reflexivity]. intros _ [E|[E|[]]]; congruence.
Qed.

Lemma module_setattr_inv name value module module' :
  module_setattr name value module = Ok module' ->
  module' = Dict.set name value module /\ ~ In name module_reserved.
Proof.
  intros H. assert (E : module' = Dict.set name value module).
  { unfold module_setattr in H.
    destruct (String.eqb name "__dict__"); [discriminate|].
    destruct (String.eqb name "__class__"); [discriminate|]. now injection H. }
  split; [exact E|]. apply (module_setattr_spec name value module). now rewrite H, E.
Qed.

Lemma add_interface_fst versions module spec module' :
  fst (add_interface versions module spec) = Ok module' ->
  exists names,
    Dict.get "__all__" module = Some (ModAll names) /\
    module' = Dict.set (is_name spec) (ModClass (class_of versions spec))
                (Dict.set "__all__" (ModAll (names ++ [is_name spec])) module) /\
    (exists log, make_methods (is_methods spec) = (Ok (methods_of spec), log)) /\
    creatable (is_name spec)
      (methods (resolved (pins_for versions (is_name spec)) (methods_of spec))) /\
    ~ In (is_name spec) module_reserved.
Proof.
  unfold add_interface. fold (pins_for versions (is_name spec)).
  destruct (make_interface spec (pins_for versions (is_name spec)))
    as [[interface|e] log] eqn:E; [|discriminate].
  assert (F : fst (make_interface spec (pins_for versions (is_name spec))) = Ok interface)
    by now rewrite E.
  apply make_interface_fst in F. destruct F as (-> & Hm & Hc).
  cbn [bind]. fold (class_of versions spec).
  destruct (Dict.get "__all__" module) as [[|names|]|]; try discriminate.
  cbn [lift fst interface_of class_of i_typename].
  intros H. apply module_setattr_inv in H. destruct H as [-> Hr].
  exists names. auto.
Qed.

Lemma add_interface_run versions module spec names :
  Dict.get "__all__" module = Some (ModAll names) ->
  (exists log, make_methods (is_methods spec) = (Ok (methods_of spec), log)) ->
  creatable (is_name spec)
    (methods (resolved (pins_for versions (is_name spec)) (methods_of spec))) ->
  ~ In (is_name spec) module_reserved ->
  fst (add_interface versions module spec)
  = Ok (Dict.set (is_name spec) (ModClass (class_of versions spec))
          (Dict.set "__all__" (ModAll (names ++ [is_name spec])) module)).
Proof.
  intros Hall Hm Hc Hr. unfold add_interface.
  fold (pins_for versions (is_name spec)).
  pose proof (make_interface_of spec (pins_for versions (is_name spec)) Hm Hc) as F.
  destruct (make_interface spec (pins_for versions (is_name spec)))
    as [[i|e] log] eqn:E; simpl in F; [|discriminate].
  injection F as ->. cbn [bind]. rewrite Hall.
  cbn [lift fst interface_of i_typename]. fold (class_of versions spec).
  now apply module_setattr_spec.
Qed.

Lemma for_each_fst {A S} (body : S -> A -> M S) x xs acc :
  fst (for_each body (x :: xs) acc)
  = match fst (body acc x) with
    | Ok acc' => fst (for_each body xs acc')
    | Err e => Err e
    end.
Proof.
  simpl. unfold bind.
  destruct (body acc x) as [[acc'|e] l]; simpl; [|reflexivity].
  now destruct (for_each body xs acc').
Qed.

Lemma same_classes_step known v1 v2 m1 m2 spec n1 n2 :
  In spec known ->
  same_classes known v1 v2 m1 m2 ->
  same_classes known v1 v2
    (Dict.set (is_name spec) (ModClass (class_of v1 spec))
       (Dict.set "__all__" (ModAll n1) m1))
    (Dict.set (is_name spec) (ModClass (class_of v2 spec))
       (Dict.set "__all__" (ModAll n2) m2)).
Proof.
  intros K R x. rewrite !dict_get_set.
  destruct (String.eqb_spec x (is_name spec)) as [->|N]; [eauto|].
  destruct (String.eqb_spec x "__all__"); [exact I|apply R].
Qed.

(* A catalogue that can be built under one set of pins can be built under
   another, as long as [type] still accepts the classes; it files the
   classes of the same descriptions under the same names. *)
Lemma make_interfaces_rebuild known v1 v2 specs : forall m1 m2 m1',
  incl specs known ->
  (forall spec, In spec specs ->
     creatable (is_name spec)
       (methods (resolved (pins_for v1 (is_name spec)) (methods_of spec))) ->
     creatable (is_name spec)
       (methods (resolved (pins_for v2 (is_name spec)) (methods_of spec)))) ->
  fst (for_each (add_interface v1) specs m1) = Ok m1' ->
  same_classes known v1 v2 m1 m2 ->
  NoDup (Dict.keys m1) -> NoDup (Dict.keys m2) ->
  exists m2',
    fst (for_each (add_interface v2) specs m2) = Ok m2' /\
    same_classes known v1 v2 m1' m2' /\
    NoDup (Dict.keys m1') /\ NoDup (Dict.keys m2').
Proof.
  induction specs as [|spec specs IH]; intros m1 m2 m1' K C H R N1 N2.
  - simpl in H. injection H as <-. exists m2. auto.
  - rewrite for_each_fst in H.
    destruct (fst (add_interface v1 m1 spec)) as [m1s|e] eqn:E; [|discriminate].
    apply add_interface_fst in E. destruct E as (n1 & A1 & -> & Hmk & Hc & Hr).
    pose proof (R "__all__") as RA. rewrite A1 in RA.
    destruct (Dict.get "__all__" m2) as [[|n2|]|] eqn:A2; try contradiction.
    pose proof (add_interface_run v2 m2 spec A2 Hmk
                  (C spec (or_introl eq_refl) Hc) Hr) as E2.
    rewrite for_each_fst, E2.
    eapply IH; [| |exact H| | |].
    + intros s Hs. apply K. now right.
    + intros s Hs. apply C. now right.
    + apply same_classes_step; [apply K; now left|exact R].
    + now repeat apply dict_nodup_set.
    + now repeat apply dict_nodup_set.
Qed.

Lemma first_module_same known v1 v2 : same_classes known v1 v2 first_module first_module.
Proof.
  intros x. destruct (Dict.get x first_module) as [[| |i]|] eqn:E; auto.
  exfalso. apply dict_get_in in E. simpl in E.
  repeat (destruct E as [E|E]; [discriminate|]). exact E.
Qed.

Lemma first_module_nodup : NoDup (Dict.keys first_module).
Proof.
  repeat constructor; simpl; intuition discriminate.
Qed.

Lemma make_interfaces_fst api_list versions module log :
  make_interfaces api_list versions = (Ok module, log) ->
  fst (for_each (add_interface versions) (interfaces api_list) first_module)
  = Ok module.
Proof. unfold make_interfaces. fold first_module. now intros ->. Qed.

Lemma make_interfaces_of_fst api_list versions module :
  fst (for_each (add_interface versions) (interfaces api_list) first_module)
  = Ok module ->
  exists log, make_interfaces api_list versions = (Ok module, log).
Proof.
  unfold make_interfaces. fold first_module.
  destruct (for_each _ _ _) as [r log]. simpl. intros ->. eauto.
Qed.

(* Every class of a catalogue is the class of a listed description, filed
   under the name of the description. *)
Lemma built_module api_list versions module log :
  make_interfaces api_list versions = (Ok module, log) ->
  NoDup (Dict.keys module) /\
  forall k i, Dict.get k module = Some (ModClass i) ->
    exists spec, In spec (interfaces api_list) /\ is_name spec = k /\
                 i = class_of versions spec.
Proof.
  intros H. apply make_interfaces_fst in H.
  destruct (@make_interfaces_rebuild (interfaces api_list) versions versions
              (interfaces api_list) first_module first_module module
              (incl_refl _) (fun _ _ C => C) H (first_module_same _ _ _)
              first_module_nodup first_module_nodup)
    as (module' & F' & R & ND & _).
  split; [exact ND|]. intros k i G.
  rewrite H in F'. injection F' as <-.
  specialize (R k). rewrite G in R.
  destruct R as (spec & Hin & Hn & -> & _). eauto.
Qed.

(** *** Binding the classes and reading their versions back *)

Lemma classes_of_get module x :
  NoDup (Dict.keys module) ->
  Dict.get x (classes_of module)
  = match Dict.get x module with
    | Some (ModClass i) => Some i
    | _ => None
    end.
Proof.
  unfold classes_of, Dict.items.
  enough (G : forall acc,
    NoDup (Dict.keys module) ->
    Dict.get x (fold_left (fun acc kv =>
                             match snd kv with
                             | ModClass interface => Dict.set (fst kv) interface acc
                             | _ => acc
                             end) module acc)
    = match Dict.get x module with
      | Some (ModClass i) => Some i
      | _ => Dict.get x acc
      end).
  { intros ND. rewrite (G [] ND). now destruct (Dict.get x module) as [[| |]|]. }
  induction module as [|[k a] module IH]; intros acc ND; simpl; [reflexivity|].
  inversion ND as [|? ? Hn ND']; subst. rewrite IH by exact ND'.
  destruct (String.eqb_spec x k) as [->|N].
  - apply dict_get_none_keys in Hn. rewrite Hn.
    destruct a; try reflexivity. apply dict_get_set_eq.
  - destruct (Dict.get x module) as [[| |]|]; try reflexivity;
      destruct a; try reflexivity; now apply dict_get_set_ne.
Qed.

Lemma classes_of_nodup module : NoDup (Dict.keys (classes_of module)).
Proof.
  unfold classes_of, Dict.items.
  enough (G : forall acc : dict Interface,
    NoDup (Dict.keys acc) ->
    NoDup (Dict.keys (fold_left (fun acc kv =>
                             match snd kv with
                             | ModClass interface => Dict.set (fst kv) interface acc
                             | _ => acc
                             end) module acc)))
    by (apply G; constructor).
  induction module as [|[k a] module IH]; intros acc ND; simpl; [exact ND|].
  apply IH. destruct a; try exact ND. now apply dict_nodup_set.
Qed.

(* A name that no description declares is bound to nothing. *)
Lemma undeclared_unbound versions meths n :
  (forall m, In m meths -> m_name m <> n) ->
  Dict.get n (methods (resolved versions meths)) = None.
Proof.
  intros H. destruct (resolve_fold versions meths no_resolution_ok) as [_ F].
  fold (resolved versions meths) in F. destruct (F n) as [-> _].
  cbn [no_resolution methods Dict.get]. apply select_absent.
  destruct (named n meths) as [|m ms] eqn:E; [reflexivity|]. exfalso.
  assert (I : In m (named n meths)) by (rewrite E; now left).
  apply named_spec in I. destruct I as [I N]. now apply (H m I).
Qed.

Lemma class_attr_unbound versions spec n :
  (forall m, In m (methods_of spec) -> m_name m <> n) ->
  Dict.get n (i_attrs (class_of versions spec))
  = Dict.get n [("name", AttrName (is_name spec)); ("__iter__", AttrIter)].
Proof.
  intros H. unfold class_of.
  rewrite attrs_get
    by apply (resolve_fold (pins_for versions (is_name spec)) (methods_of spec)
                           no_resolution_ok).
  now rewrite undeclared_unbound.
Qed.

Section Binding.
Variable python_instantiate : Interface -> result Interface.

Lemma instantiate_plain i :
  (forall hook, In hook construction_hooks -> Dict.get hook (i_attrs i) = None) ->
  instantiate python_instantiate i = Ok i.
Proof.
  intros H. unfold instantiate, construction_hooks, Dict.mem. cbn [existsb].
  now rewrite !H by (simpl; auto).
Qed.

Lemma bind_loop_plain items : forall acc,
  (forall k i, In (k, ModClass i) items -> instantiate python_instantiate i = Ok i) ->
  bind_loop python_instantiate items acc
  = Ok (fold_left (fun acc kv =>
                     match snd kv with
                     | ModClass interface => Dict.set (fst kv) interface acc
                     | _ => acc
                     end) items acc).
Proof.
  induction items as [|[k a] items IH]; intros acc H; [reflexivity|].
  assert (H' : forall k i, In (k, ModClass i) items ->
                           instantiate python_instantiate i = Ok i)
    by (intros k' i' I'; apply (H k' i'); now right).
  destruct a as [| |i]; cbn [bind_loop fold_left snd fst]; [now apply IH..|].
  rewrite (H k i) by now left. now apply IH.
Qed.

Lemma bind_interfaces_plain module :
  (forall k i, In (k, ModClass i) module -> instantiate python_instantiate i = Ok i) ->
  _bind_interfaces python_instantiate module = Ok (classes_of module).
Proof. intros H. unfold _bind_interfaces, classes_of. now apply bind_loop_plain. Qed.

(* A class synthesised from descriptions none of which is called after a
   construction hook is instantiated as any class. *)
Lemma class_constructs versions spec :
  (forall m, In m (methods_of spec) -> ~ In (m_name m) construction_hooks) ->
  instantiate python_instantiate (class_of versions spec) = Ok (class_of versions spec).
Proof.
  intros H. apply instantiate_plain. intros hook I.
  rewrite class_attr_unbound
    by (intros m Im E; apply (H m Im); now rewrite E).
  destruct I as [<-|[<-|[<-|[]]]]; reflexivity.
Qed.

Lemma built_module_binds api_list versions module log :
  make_interfaces api_list versions = (Ok module, log) ->
  none_called construction_hooks api_list ->
  _bind_interfaces python_instantiate module = Ok (classes_of module).
Proof.
  intros H Hplain. destruct (@built_module _ _ _ _ H) as [ND K].
  apply bind_interfaces_plain. intros k i I.
  apply dict_in_get in I; [|exact ND].
  destruct (K k i I) as (spec & Hin & _ & ->).
  apply class_constructs. intros m Im. now apply (Hplain spec m).
Qed.

End Binding.

Lemma none_called_incl names names' api_list :
  incl names' names -> none_called names api_list -> none_called names' api_list.
Proof. intros I H spec m Hs Hm Hn. apply (H spec m Hs Hm). now apply I. Qed.

Lemma pins_get_set_text x k v (d : VersionPins) :
  pins_get x (pins_set_text k v d) = if String.eqb x k then Some v else pins_get x d.
Proof.
  induction d as [|[[k'|i m] v'] d IH]; simpl.
  - reflexivity.
  - destruct (String.eqb_spec k k') as [->|N]; simpl.
    + now destruct (String.eqb x k').
    + rewrite IH. destruct (String.eqb_spec x k') as [->|N'];
        [|reflexivity].
      destruct (String.eqb_spec k' k); [congruence|reflexivity].
  - exact IH.
Qed.

Lemma pins_get_app_bound x (d : VersionPins) i m v :
  pins_get x (d ++ [(KeyBound i m, v)])%list = pins_get x d.
Proof.
  induction d as [|[[k'|i' m'] v'] d IH]; simpl; [reflexivity| |exact IH].
  now rewrite IH.
Qed.

Lemma method_versions_get (d : dict Method) name :
  NoDup (Dict.keys d) ->
  (forall k c, Dict.get k d = Some c -> m_name c = k) ->
  Dict.get name (method_versions (Dict.values d))
  = option_map m_version (Dict.get name d).
Proof.
  unfold method_versions.
  enough (G : forall acc,
    NoDup (Dict.keys d) ->
    (forall k c, In (k, c) d -> m_name c = k) ->
    Dict.get name (fold_left (fun acc method =>
                                Dict.set (m_name method) (m_version method) acc)
                             (Dict.values d) acc)
    = match Dict.get name d with
      | Some c => Some (m_version c)
      | None => Dict.get name acc
      end).
  { intros ND K. rewrite (G [] ND).
    - now destruct (Dict.get name d).
    - intros k c I. apply K. now apply dict_in_get. }
  induction d as [|[k c] d IH]; intros acc ND K; simpl; [reflexivity|].
  inversion ND as [|? ? Hn ND']; subst.
  rewrite IH; [|exact ND'|intros; apply K; now right].
  rewrite (K k c) by now left.
  destruct (String.eqb_spec name k) as [->|N].
  - apply dict_get_none_keys in Hn. rewrite Hn. apply dict_get_set_eq.
  - destruct (Dict.get name d); [reflexivity|]. now apply dict_get_set_ne.
Qed.

(* [interface.name] of a class that binds no method called [name] is the
   text that [make_interface] stored ... *)
Lemma interface_name_of spec st :
  resolution_ok st ->
  Dict.get "name" (methods st) = None ->
  interface_name (interface_of spec st) = Ok (KeyText (is_name spec)).
Proof.
  intros Hok E. unfold interface_name. now rewrite (attrs_get spec "name" Hok), E.
Qed.

(* ... and the method, bound to the instance, once one is. *)
Lemma interface_name_shadowed spec st m :
  resolution_ok st ->
  Dict.get "name" (methods st) = Some m ->
  interface_name (interface_of spec st) = Ok (KeyBound (interface_of spec st) m).
Proof.
  intros Hok E. unfold interface_name. now rewrite (attrs_get spec "name" Hok), E.
Qed.

Lemma interface_iter_of spec st bound :
  resolution_ok st ->
  interface_iter (interface_of spec st) = Ok bound ->
  bound = Dict.values (methods st).
Proof.
  intros Hok. unfold interface_iter. rewrite (attrs_get spec "__iter__" Hok).
  destruct (Dict.get "__iter__" (methods st)); simpl; [discriminate|].
  now intros [= <-].
Qed.

Section ReadingBack.
Variable python_pin_by_name :
  VersionPins -> Interface -> dict Z -> result VersionPins.

Lemma pin_loop_get (entries : dict Interface) : forall pins0 pins,
  NoDup (Dict.keys entries) ->
  (forall k i, In (k, i) entries ->
     exists spec st, i = interface_of spec st /\ is_name spec = k /\
                     resolution_ok st /\
                     Dict.get "name" (methods st) = None /\
                     Dict.get "__getattribute__" (methods st) = None) ->
  pin_loop python_pin_by_name (Dict.values entries) pins0 = Ok pins ->
  forall x,
    pins_get x pins
    = match Dict.get x entries with
      | Some i => Some (method_versions (Dict.values (i_methods i)))
      | None => pins_get x pins0
      end.
Proof.
  induction entries as [|[k i] entries IH]; intros pins0 pins ND K H x; simpl in *.
  - now injection H as <-.
  - inversion ND as [|? ? Hn ND']; subst.
    destruct (K k i (or_introl eq_refl)) as (spec & st & -> & <- & Hok & Nn & Ng).
    unfold pin_interface in H.
    destruct (interface_iter (interface_of spec st)) as [bound|] eqn:Ei; [|discriminate].
    apply (interface_iter_of _ Hok) in Ei. subst bound.
    unfold Dict.mem in H. rewrite (attrs_get spec "__getattribute__" Hok), Ng in H.
    cbn [Dict.get String.eqb Ascii.eqb Bool.eqb] in H.
    rewrite (interface_name_of spec Hok Nn) in H. cbn [pins_set] in H.
    rewrite (IH _ _ ND' (fun k i I => K k i (or_intror I)) H x).
    fold (method_versions (Dict.values (methods st))).
    rewrite pins_get_set_text. cbn [interface_of i_methods].
    destruct (String.eqb_spec x (is_name spec)) as [->|N].
    + apply dict_get_none_keys in Hn. now rewrite Hn.
    + reflexivity.
Qed.

End ReadingBack.

(* Pinning every name to the version bound for it selects the same versions
   again, as long as every name that is declared is bound. *)
Lemma reselect_same (meths : list Method) (old new : dict Z) name :
  (forall n, Dict.get n new
             = option_map m_version (fold_left (select_step old n) meths None)) ->
  (forall pinned, Dict.get name old = Some pinned -> named name meths <> [] ->
                  In pinned (versions_declared name meths)) ->
  option_map m_version (fold_left (select_step new name) meths None)
  = option_map m_version (fold_left (select_step old name) meths None).
Proof.
  intros Hnew Hold. specialize (Hnew name).
  destruct (fold_left (select_step old name) meths None) as [m|] eqn:E;
    simpl in Hnew |- *.
  - destruct (@select_origin old name meths None m E) as [|[I N]]; [discriminate|].
    assert (D : In (m_version m) (versions_declared name meths)).
    { unfold versions_declared. apply in_map. now apply named_spec. }
    destruct (@select_pinned_found new name (m_version m) Hnew meths None (or_introl D))
      as [m' Hm'].
    rewrite Hm'. simpl. f_equal.
    apply (@select_pinned_version new name (m_version m) Hnew meths None m' Hm').
    discriminate.
  - assert (A : named name meths = []).
    { assert (D : named name meths = [] \/ named name meths <> [])
        by (destruct (named name meths); [now left|right; discriminate]).
      destruct D as [D|NE]; [exact D|]. exfalso.
      destruct (Dict.get name old) as [p|] eqn:P.
      - specialize (Hold p eq_refl NE).
        destruct (@select_pinned_found old name p P meths None (or_introl Hold)).
        congruence.
      - destruct (@select_unpinned_found old name P meths None (or_introl NE)).
        congruence. }
    now rewrite select_absent.
Qed.

(* Where every pin names a declared version, every declared name is bound;
   whether [type] accepts the class is then a matter of the declared names
   alone, whatever the pins. *)
Lemma creatable_repinned (meths : list Method) (old new : dict Z) x :
  (forall name pinned, Dict.get name old = Some pinned -> named name meths <> [] ->
                       In pinned (versions_declared name meths)) ->
  creatable x (methods (resolved old meths)) ->
  creatable x (methods (resolved new meths)).
Proof.
  intros Hold [Hn Hr]. split; [exact Hn|]. intros n I. specialize (Hr n I).
  destruct (resolve_fold old meths no_resolution_ok) as [_ Fo].
  fold (resolved old meths) in Fo. destruct (Fo n) as [Eo _].
  cbn [no_resolution methods Dict.get] in Eo. rewrite Eo in Hr.
  apply undeclared_unbound. intros m Im Nm.
  assert (NE : named n meths <> []).
  { intros E. assert (Hm : In m (named n meths)) by now apply named_spec.
    now rewrite E in Hm. }
  destruct (Dict.get n old) as [p|] eqn:P.
  - destruct (@select_pinned_found old n p P meths None
                (or_introl (Hold n p P NE))). congruence.
  - destruct (@select_unpinned_found old n P meths None (or_introl NE)).
    congruence.
Qed.

Section RoundTrip.
Variable Resp : Type.
Variable python_instantiate : Interface -> result Interface.
Variable python_pin_by_name :
  VersionPins -> Interface -> dict Z -> result VersionPins.
Variable key : option string.
Variable format : Decoder Resp.

(* What a client bound to a catalogue holds, and what [pin_versions] reads
   off it, when no method is called after one of the hooks. *)
Lemma pin_versions_lookup api_list versions module log self pins :
  none_called hook_names api_list ->
  make_interfaces api_list versions = (Ok module, log) ->
  API_with python_instantiate key format module = Ok self ->
  pin_versions python_pin_by_name self = Ok pins ->
  api_interfaces self = classes_of module /\
  forall interface method,
    Dict.get method (pins_for pins interface)
    = catalog_version (classes_of module) interface method.
Proof.
  intros Hplain H Hself Hpins.
  assert (Hc : none_called construction_hooks api_list).
  { apply (none_called_incl (names := hook_names)); [|exact Hplain].
    intros n [<-|[<-|[<-|[]]]]; simpl; auto 10. }
  unfold API_with in Hself.
  rewrite (@built_module_binds python_instantiate _ _ _ _ H Hc) in Hself.
  injection Hself as <-. cbn [api_interfaces] in *.
  split; [reflexivity|].
  destruct (@built_module _ _ _ _ H) as [ND K].
  assert (P : forall k i, In (k, i) (classes_of module) ->
            exists spec st, i = interface_of spec st /\ is_name spec = k /\
                            resolution_ok st /\
                            Dict.get "name" (methods st) = None /\
                            Dict.get "__getattribute__" (methods st) = None).
  { intros k i I.
    apply dict_in_get in I; [|apply classes_of_nodup].
    rewrite classes_of_get in I by exact ND.
    destruct (Dict.get k module) as [[| |i1]|] eqn:G; try discriminate.
    injection I as ->.
    destruct (K k i G) as (spec & Hin & Hn & ->).
    exists spec, (resolved (pins_for versions (is_name spec)) (methods_of spec)).
    split; [reflexivity|]. split; [exact Hn|]. split; [|split].
    - apply (resolve_fold (pins_for versions (is_name spec)) (methods_of spec)
                          no_resolution_ok).
    - apply undeclared_unbound. intros m Im E.
      apply (Hplain spec m Hin Im). rewrite E. simpl. auto.
    - apply undeclared_unbound. intros m Im E.
      apply (Hplain spec m Hin Im). rewrite E. simpl. auto. }
  intros x n. unfold pin_versions in Hpins.
  pose proof (pin_loop_get python_pin_by_name (classes_of module) []
                (classes_of_nodup module) P Hpins x) as G.
  unfold catalog_version, pins_for. rewrite G.
  destruct (Dict.get x (classes_of module)) as [i|] eqn:B; [|reflexivity].
  apply dict_get_in in B. destruct (P _ _ B) as (spec & st & -> & _ & Hok & _).
  rewrite bound_method_of by exact Hok. cbn [interface_of i_methods].
  destruct Hok as [NDm Km].
  apply method_versions_get; [exact NDm|].
  intros k c Hk. now apply (Km k c).
Qed.

(** C4 (as amended). When every pin used to build a catalogue names a
    declared version of its method, and no method of the listing is called
    [name], [__iter__], [__getattribute__], [__new__], [__init__] or
    [__setattr__], [pin_versions] of a client bound to that catalogue, given
    back as the pins for the same listing, builds a catalogue that binds the
    same version, or nothing, under every method name of every interface. *)
Theorem pin_versions_round_trip api_list versions
    (Hdecl : pins_declared api_list versions)
    (Hplain : none_called hook_names api_list) :
  round_trip python_instantiate python_pin_by_name key format api_list versions.
Proof.
  intros module log self pins Hbuild Hself Hpins.
  destruct (@pin_versions_lookup _ _ _ _ _ _ Hplain Hbuild Hself Hpins) as [Eself G].
  assert (Hc : none_called construction_hooks api_list).
  { apply (none_called_incl (names := hook_names)); [|exact Hplain].
    intros n [<-|[<-|[<-|[]]]]; simpl; auto 10. }
  pose proof (@make_interfaces_fst _ _ _ _ Hbuild) as F.
  destruct (@make_interfaces_rebuild (interfaces api_list) versions pins
              (interfaces api_list) first_module first_module module
              (incl_refl _)
              (fun spec Hin =>
                 @creatable_repinned (methods_of spec)
                   (pins_for versions (is_name spec)) (pins_for pins (is_name spec))
                   (is_name spec)
                   (fun name pinned => Hdecl spec name pinned Hin))
              F (first_module_same _ _ _)
              first_module_nodup first_module_nodup)
    as (module' & F' & R & ND & ND').
  destruct (@make_interfaces_of_fst _ _ _ F') as [log' Hbuild'].
  exists module', log'.
  eexists. split; [exact Hbuild'|]. split.
  { unfold API_with.
    rewrite (@built_module_binds python_instantiate _ _ _ _ Hbuild' Hc). reflexivity. }
  cbn [api_interfaces]. rewrite Eself.
  intros x n. unfold catalog_version.
  rewrite !classes_of_get by assumption.
  specialize (G x). specialize (R x).
  destruct (Dict.get x module) as [[| |i1]|] eqn:G1;
    destruct (Dict.get x module') as [[| |i2]|]; try contradiction; try reflexivity.
  destruct R as (spec & Hin & Hn & -> & ->). subst x.
  unfold class_of. rewrite !bound_method_resolved.
  destruct (resolve_fold (pins_for versions (is_name spec)) (methods_of spec)
                         no_resolution_ok) as [[NDm Km] Hm].
  fold (resolved (pins_for versions (is_name spec)) (methods_of spec)) in NDm, Km, Hm.
  apply reselect_same.
  - intros n'. rewrite (G n'). unfold catalog_version.
    rewrite classes_of_get by exact ND. rewrite G1.
    unfold class_of. now rewrite bound_method_resolved.
  - intros pinned Hp NE. now apply (Hdecl spec n pinned).
Qed.

End RoundTrip.

(** ** Worked examples *)




(** C4, as stated, fails.  Built under a pin to the undeclared version 3 the
    catalogue binds nothing as [ISteamNews.GetNewsForApp]; [pin_versions]
    then has no pin for it, and the rebuilt catalogue binds version 2.
    With a method called [name], pinned to its declared version 1, the
    catalogue binds version 1; [pin_versions] files the interface under the
    bound method that [interface.name] now is, so the rebuilt catalogue
    finds no pin under the interface name and binds version 2. *)
Lemma pin_versions_round_trip_fails :
  ~ round_trip example_instantiate example_pin_by_name
      None (text_format "json") news_listing (pin_news 3) /\
  pins_declared name_listing (pin_name 1) /\
  ~ round_trip example_instantiate example_pin_by_name
      None (text_format "json") name_listing (pin_name 1).
Proof.
  split; [|split].
  - intros H.
    pose (module := Dict.set "ISteamNews"
                      (ModClass (class_of (pin_news 3) news_interface))
                      (Dict.set "__all__" (ModAll ["ISteamNews"]) first_module)).
    destruct (H module []
                {| api_key := None; api_format := text_format "json";
                   api_interfaces_module := module;
                   api_interfaces := classes_of module |}
                [(KeyText "ISteamNews", [])] eq_refl eq_refl eq_refl)
      as (module' & log' & self' & Hbuild & Hself & Hsame).
    vm_compute in Hbuild. injection Hbuild as <- _.
    vm_compute in Hself. injection Hself as <-.
    specialize (Hsame "ISteamNews" "GetNewsForApp").
    vm_compute in Hsame. discriminate.
  - intros spec name pinned [<-|[]] Hp _.
    change (Dict.get name [("name", 1)] = Some pinned) in Hp.
    unfold Dict.get in Hp.
    destruct (String.eqb_spec name "name") as [->|]; [|discriminate].
    injection Hp as <-. vm_compute. auto.
  - intros H.
    pose (module := Dict.set "ISteamNews"
                      (ModClass (class_of (pin_name 1)
                                   (two_versions_of "ISteamNews" "name")))
                      (Dict.set "__all__" (ModAll ["ISteamNews"]) first_module)).
    pose (self := {| api_key := None; api_format := text_format "json";
                     api_interfaces_module := module;
                     api_interfaces := classes_of module |}).
    pose (pins := match pin_versions example_pin_by_name self with
                  | Ok pins => pins
                  | Err _ => []
                  end).
    assert (P : pin_versions example_pin_by_name self = Ok pins)
      by (vm_compute; reflexivity).
    destruct (H module [StaleVersionPinned "ISteamNews" "name" 1 2] self pins
                eq_refl eq_refl P)
      as (module' & log' & self' & Hbuild & Hself & Hsame).
    vm_compute in Hbuild. injection Hbuild as <- _.
    vm_compute in Hself. injection Hself as <-.
    specialize (Hsame "ISteamNews" "name").
    vm_compute in Hsame. discriminate.
Qed.

Lemma pin_versions_round_trip_witness :
  pins_declared news_listing (pin_news 1) /\
  none_called hook_names news_listing /\
  round_trip example_instantiate example_pin_by_name
    None (text_format "json") news_listing (pin_news 1).
Proof.
  assert (H : pins_declared news_listing (pin_news 1)).
  { intros spec name pinned [<-|[]] Hp _.
    change (Dict.get name [("GetNewsForApp", 1)] = Some pinned) in Hp.
    unfold Dict.get in Hp.
    destruct (String.eqb_spec name "GetNewsForApp") as [->|]; [|discriminate].
    injection Hp as <-. vm_compute. auto. }
  assert (P : none_called hook_names news_listing).
  { intros spec m [<-|[]] Im. vm_compute in Im.
    destruct Im as [<-|[<-|[]]]; vm_compute; intuition discriminate. }
  split; [exact H|]. split; [exact P|].
  exact (@pin_versions_round_trip string example_instantiate example_pin_by_name
           None (text_format "json") news_listing (pin_news 1) H P).
Defined.




Lemma method_signature_and_validation_witness :
  exists method,
    make_method example_ab = (Ok method, []) /\
    m_name method = "GetFoo" /\
    signature (m_args method) = "self, b, a=None" /\
    validate (m_args method) [("b", PyInt 5)] = Ok [("b", PyInt 5)] /\
    validate (m_args method) [] = Err (MissingMandatoryArgument "b") /\
    method_call method [] = Err (MissingPositionalArgument "b").
Proof.
  eexists. split; [vm_compute; reflexivity|].
  split; [reflexivity|].
  assert (Hparams : ms_parameters example_ab = [param_a None; param_b (Some "bee")] \/
                    ms_parameters example_ab = [param_b (Some "bee"); param_a None])
    by (left; reflexivity).
  destruct (@method_signature_and_validation example_ab _ [] None (Some "bee")
              Hparams eq_refl) as (S & V & _ & V0 & C0 & _).
  split; [exact S|]. split; [exact V|]. split; [exact V0|exact C0].
Defined.

Lemma request_replaces_caller_key_witness :
  exists rq,
    sent (snd (request example_transport (example_api (Some "SECRET") "json")
                       "GET" "ISteamUser" "GetPlayerSummaries" 2
                       (Some 0%nat) None example_world)) = [rq] /\
    Dict.get "key" (rq_params rq) = Some (PyStr "SECRET").
Proof.
  assert (Hformat : In (format_tag (selected_decoder
                                      (example_api (Some "SECRET") "json") None))
                       API_RESPONSE_FORMATS) by (simpl; auto).
  assert (Hdict : NoDup (Dict.keys (store example_world 0%nat))).
  { repeat constructor; simpl; intuition discriminate. }
  assert (Hkey : Dict.get "key" (store example_world 0%nat) = Some (PyStr "caller"))
    by reflexivity.
  destruct (@request_replaces_caller_key string example_transport
              (example_api (Some "SECRET") "json")
              "GET" "ISteamUser" "GetPlayerSummaries" 2 0%nat None example_world
              (PyStr "caller") Hformat Hdict Hkey) as (rq & S & K & _).
  exists rq. split; [exact S|exact K].
Defined.

Lemma request_rejects_unknown_format_witness :
  fst (request example_transport (example_api (Some "SECRET") "json")
               "GET" "ISteamUser" "GetPlayerSummaries" 2
               (Some 0%nat) (Some (text_format "yaml")) example_world)
  = Err (InvalidDecoder "yaml") /\
  sent (snd (request example_transport (example_api (Some "SECRET") "json")
                     "GET" "ISteamUser" "GetPlayerSummaries" 2
                     (Some 0%nat) (Some (text_format "yaml")) example_world)) = [].
Proof.
  assert (Hformat : ~ In (format_tag (selected_decoder
                                        (example_api (Some "SECRET") "json")
                                        (Some (text_format "yaml"))))
                         API_RESPONSE_FORMATS).
  { simpl. intuition discriminate. }
  destruct (@request_rejects_unknown_format string example_transport
              (example_api (Some "SECRET") "json")
              "GET" "ISteamUser" "GetPlayerSummaries" 2
              (Some 0%nat) (Some (text_format "yaml")) example_world Hformat)
    as (F & S & _).
  split; [exact F|exact S].
Defined.

Lemma request_mutates_params_witness :
  store (snd (request example_transport (example_api (Some "SECRET") "json")
                      "GET" "ISteamUser" "GetPlayerSummaries" 2
                      (Some 0%nat) None example_world)) 0%nat
  = [("steamid", PyInt 76561197960435530); ("format", PyStr "json");
     ("key", PyStr "SECRET")].
Proof.
  assert (Hdict : NoDup (Dict.keys (store example_world 0%nat))).
  { repeat constructor; simpl; intuition discriminate. }
  assert (Hformat : In (format_tag (selected_decoder
                                      (example_api (Some "SECRET") "json") None))
                       API_RESPONSE_FORMATS) by (simpl; auto).
  destruct (@request_mutates_params string example_transport
              (example_api (Some "SECRET") "json")
              "GET" "ISteamUser" "GetPlayerSummaries" 2 0%nat None example_world
              Hdict) as [_ H].
  destruct (H Hformat) as (E & _). exact E.
Defined.

(** * Further properties *)

(** ** Sanitised names *)

Lemma filter_chars_fixed (p : ascii -> bool) (s : string) :
  string_forall p s = true -> filter_chars p s = s.
Proof.
  induction s as [|c s IH]; simpl; [reflexivity|].
  intros H. apply andb_true_iff in H. destruct H as [Hc Hs].
  rewrite Hc. f_equal. now apply IH.
Qed.

Lemma ensure_identifier_of_identifier (s : string) :
  is_identifier s = true -> _ensure_identifier s = Ok s.
Proof.
  destruct s as [|c s]; unfold is_identifier; [discriminate|].
  intros H. apply andb_true_iff in H. destruct H as [Hc Hs].
  unfold _ensure_identifier. rewrite (filter_chars_fixed _ _ Hs).
  simpl. now rewrite Hc.
Qed.

Lemma ensure_identifier_is_identifier (name id : string) :
  _ensure_identifier name = Ok id -> is_identifier id = true.
Proof.
  unfold _ensure_identifier.
  destruct (strip_leading _) as [id'|] eqn:E; [|discriminate].
  intros [= <-]. apply strip_leading_some in E.
  destruct E as (d & c & rest & H & -> & Hc & _).
  pose proof (filter_chars_forall is_identifier_char name) as F.
  rewrite H, string_forall_app in F. apply andb_true_iff in F.
  simpl. rewrite Hc. simpl. exact (proj2 F).
Qed.

(** X1. What [_ensure_identifier] returns is an identifier of the form
    [[A-Za-z_][A-Za-z0-9_]*], and sanitising it again changes nothing. *)
Theorem ensure_identifier_idempotent (name id : string)
    (H : _ensure_identifier name = Ok id) :
  is_identifier id = true /\ _ensure_identifier id = Ok id.
Proof.
  pose proof (ensure_identifier_is_identifier _ H) as I.
  split; [exact I|]. now apply ensure_identifier_of_identifier.
Qed.

Lemma ensure_identifier_idempotent_witness :
  is_identifier "steamid" = true /\ _ensure_identifier "steamid" = Ok "steamid".
Proof.
  apply (@ensure_identifier_idempotent "1 steam-id!" "steamid"). reflexivity.
Defined.

(** ** The parameter table, description by description *)

Lemma bind_ret_l {A B} (a : A) (f : A -> M B) : bind (ret a) f = f a.
Proof. unfold bind, ret. now destruct (f a). Qed.

Lemma bind_ext {A B} (m : M A) (f g : A -> M B) :
  (forall a, f a = g a) -> bind m f = bind m g.
Proof.
  intros H. unfold bind. destruct m as [[a|e] l]; [|reflexivity]. now rewrite H.
Qed.

Lemma init_loop_skips_key specs : forall unordered,
  for_each init_param specs unordered
  = for_each init_param (described specs) unordered.
Proof.
  induction specs as [|spec specs IH]; intros unordered; simpl; [reflexivity|].
  destruct (String.eqb (raw_name spec) "key") eqn:E; simpl.
  - unfold init_param at 1. rewrite E, bind_ret_l. apply IH.
  - apply bind_ext. intros acc. apply IH.
Qed.

(** X2. Descriptions called [key] play no part in the parameter table:
    the table, the warnings and any failure are those of the other
    descriptions alone. *)
Theorem key_descriptions_ignored (specs : list RawParam) :
  MethodParameters_init specs = MethodParameters_init (described specs).
Proof.
  unfold MethodParameters_init. now rewrite init_loop_skips_key.
Qed.

Lemma dict_set_absent {V} (d : dict V) k v :
  Dict.get k d = None -> Dict.set k v d = (d ++ [(k, v)])%list.
Proof.
  induction d as [|[k' v'] d IH]; simpl; [reflexivity|].
  destruct (String.eqb k k'); [discriminate|]. intros H. now rewrite IH.
Qed.

Lemma dict_get_app {V} (d1 d2 : dict V) k :
  Dict.get k (d1 ++ d2)%list
  = match Dict.get k d1 with Some v => Some v | None => Dict.get k d2 end.
Proof.
  induction d1 as [|[k' v'] d1 IH]; simpl; [reflexivity|].
  destruct (String.eqb k k'); [reflexivity|exact IH].
Qed.

Lemma dict_mem_false {V} (d : dict V) k : Dict.mem k d = false <-> Dict.get k d = None.
Proof. unfold Dict.mem. destruct (Dict.get k d); split; congruence. Qed.

(* One description that is not called [key]: what a successful step does. *)
Lemma init_param_exact unordered spec d log :
  String.eqb (raw_name spec) "key" = false ->
  init_param unordered spec = (Ok d, log) ->
  _ensure_identifier (raw_name spec) = Ok (sanitized_name spec) /\
  Dict.get (sanitized_name spec) unordered = None /\
  d = (unordered ++ [table_entry spec])%list /\
  log = type_warnings [spec].
Proof.
  intros K. unfold init_param, table_entry, sanitized_name, type_warnings.
  rewrite K. cbn [flat_map].
  destruct (_ensure_identifier (raw_name spec)) as [name|e]; [|discriminate].
  cbn [lift bind].
  destruct (Dict.mem name unordered) eqn:Hm; [discriminate|].
  apply dict_mem_false in Hm.
  destruct (Dict.mem (raw_type spec) PARAMETER_TYPES); cbn;
    intros [= <- <-]; rewrite (@dict_set_absent _ _ _ _ Hm); auto.
Qed.

(* The converse: such a step succeeds when the name can be formed and is
   not taken. *)
Lemma init_param_run unordered spec :
  String.eqb (raw_name spec) "key" = false ->
  _ensure_identifier (raw_name spec) = Ok (sanitized_name spec) ->
  Dict.get (sanitized_name spec) unordered = None ->
  init_param unordered spec
  = (Ok (unordered ++ [table_entry spec])%list, type_warnings [spec]).
Proof.
  intros K E G. unfold init_param, table_entry, type_warnings.
  rewrite K, E. cbn [lift bind flat_map].
  apply dict_mem_false in G. rewrite G. apply dict_mem_false in G.
  destruct (Dict.mem (raw_type spec) PARAMETER_TYPES); cbn;
    rewrite (@dict_set_absent _ _ _ _ G); reflexivity.
Qed.

Lemma type_warnings_cons spec specs :
  type_warnings (spec :: specs) = (type_warnings [spec] ++ type_warnings specs)%list.
Proof. unfold type_warnings. simpl. now rewrite app_nil_r. Qed.

Lemma init_loop_exact specs : forall unordered d log,
  Forall (fun spec => String.eqb (raw_name spec) "key" = false) specs ->
  for_each init_param specs unordered = (Ok d, log) ->
  Forall formable specs /\
  NoDup (map sanitized_name specs) /\
  (forall spec, In spec specs -> Dict.get (sanitized_name spec) unordered = None) /\
  d = (unordered ++ map table_entry specs)%list /\
  log = type_warnings specs.
Proof.
  induction specs as [|spec specs IH]; intros unordered d log K H.
  - simpl in H. injection H as <- <-. repeat split; try constructor.
    + intros spec [].
    + simpl. now rewrite app_nil_r.
  - inversion K as [|? ? K1 K2]; subst. simpl in H.
    apply bind_ok_inv in H. destruct H as (d1 & l1 & l2 & H1 & H2 & ->).
    destruct (@init_param_exact _ _ _ _ K1 H1) as (E & G & -> & ->).
    destruct (IH _ _ _ K2 H2) as (F & ND & A & -> & ->).
    assert (A' : forall s, In s specs ->
               Dict.get (sanitized_name s) unordered = None /\
               sanitized_name s <> sanitized_name spec).
    { intros s I. specialize (A s I). rewrite dict_get_app in A.
      destruct (Dict.get (sanitized_name s) unordered); [discriminate|].
      split; [reflexivity|]. intros Eq. simpl in A. unfold table_entry in A.
      simpl in A. rewrite Eq, String.eqb_refl in A. discriminate. }
    repeat split.
    + constructor; assumption.
    + simpl. constructor; [|exact ND].
      intros I. apply in_map_iff in I. destruct I as (s & Es & I).
      now apply (proj2 (A' s I)).
    + intros s [<-|I]; [exact G|apply (A' s I)].
    + simpl. now rewrite <- app_assoc.
    + symmetry. apply type_warnings_cons.
Qed.

Lemma init_loop_run specs : forall unordered,
  Forall (fun spec => String.eqb (raw_name spec) "key" = false) specs ->
  Forall formable specs ->
  NoDup (map sanitized_name specs) ->
  (forall spec, In spec specs -> Dict.get (sanitized_name spec) unordered = None) ->
  for_each init_param specs unordered
  = (Ok (unordered ++ map table_entry specs)%list, type_warnings specs).
Proof.
  induction specs as [|spec specs IH]; intros unordered K F ND A; simpl.
  - now rewrite app_nil_r.
  - inversion K as [|? ? K1 K2]; inversion F as [|? ? F1 F2];
      inversion ND as [|? ? N1 N2]; subst.
    rewrite (@init_param_run unordered spec K1 F1 (A spec (or_introl eq_refl))).
    cbn [bind]. rewrite IH; try assumption.
    + rewrite <- app_assoc. unfold type_warnings at 1. simpl.
      now rewrite app_nil_r.
    + intros s I. rewrite dict_get_app, (A s (or_intror I)). simpl.
      unfold table_entry. simpl.
      destruct (String.eqb_spec (sanitized_name s) (sanitized_name spec)) as [Eq|];
        [|reflexivity].
      exfalso. apply N1. rewrite <- Eq. now apply in_map.
Qed.

Lemma described_nonkey specs :
  Forall (fun spec => String.eqb (raw_name spec) "key" = false) (described specs).
Proof.
  apply Forall_forall. intros s I. apply filter_In in I.
  now apply negb_true_iff.
Qed.

Lemma table_entry_keys specs :
  Dict.keys (map table_entry specs) = map sanitized_name specs.
Proof. unfold Dict.keys. rewrite map_map. reflexivity. Qed.

(* The table, when it can be built. *)
Lemma parameters_exact specs args log :
  MethodParameters_init specs = (Ok args, log) ->
  Forall formable (described specs) /\
  NoDup (map sanitized_name (described specs)) /\
  args = sorted_by_key (map table_entry (described specs)) /\
  log = type_warnings (described specs).
Proof.
  unfold MethodParameters_init. rewrite init_loop_skips_key. intros H.
  apply bind_ok_inv in H. destruct H as (d & l1 & l2 & H & R & ->).
  injection R as <- <-.
  destruct (@init_loop_exact _ _ _ _ (described_nonkey specs) H)
    as (F & ND & _ & -> & ->).
  rewrite app_nil_r. auto.
Qed.

Lemma dict_get_perm {V} (d d' : dict V) k :
  Permutation d d' -> NoDup (Dict.keys d) -> Dict.get k d = Dict.get k d'.
Proof.
  intros P ND.
  assert (ND' : NoDup (Dict.keys d')).
  { eapply Permutation_NoDup; [|exact ND]. now apply Permutation_map. }
  destruct (Dict.get k d) as [v|] eqn:E.
  - symmetry. apply dict_in_get; [exact ND'|].
    eapply Permutation_in; [exact P|]. now apply dict_get_in.
  - destruct (Dict.get k d') as [v'|] eqn:E'; [|reflexivity].
    apply dict_get_in in E'. apply (Permutation_in _ (Permutation_sym P)) in E'.
    apply dict_in_get in E'; [congruence|exact ND].
Qed.

Lemma table_entries_get specs spec :
  NoDup (map sanitized_name specs) -> In spec specs ->
  Dict.get (sanitized_name spec) (map table_entry specs) = Some (snd (table_entry spec)).
Proof.
  intros ND I. apply dict_in_get.
  - now rewrite table_entry_keys.
  - apply in_map_iff. exists spec. split; [reflexivity|exact I].
Qed.

(** X3. When the parameter table can be built, the descriptions not
    called [key] have pairwise different sanitised names, and the table
    holds exactly one entry for each of them, filed under that name, with
    the description's optional flag, its description text ([""] when
    missing) and its type ([string] when the type is unknown). *)
Theorem parameter_table_complete specs args log
    (H : MethodParameters_init specs = (Ok args, log)) :
  NoDup (map sanitized_name (described specs)) /\
  Permutation (Dict.keys args) (map sanitized_name (described specs)) /\
  (forall spec, In spec (described specs) ->
     _ensure_identifier (raw_name spec) = Ok (sanitized_name spec) /\
     Dict.get (sanitized_name spec) args = Some (snd (table_entry spec))) /\
  (forall name param, Dict.get name args = Some param ->
     exists spec, In spec (described specs) /\
                  name = sanitized_name spec /\ param = snd (table_entry spec)).
Proof.
  destruct (parameters_exact _ H) as (F & ND & -> & _).
  assert (NDk : NoDup (map fst (map table_entry (described specs)))).
  { change (NoDup (Dict.keys (map table_entry (described specs)))).
    now rewrite table_entry_keys. }
  destruct (sorted_by_key_spec _ NDk) as [_ P].
  split; [exact ND|]. split; [|split].
  - rewrite <- table_entry_keys. now apply Permutation_map.
  - intros spec I. split.
    + rewrite Forall_forall in F. now apply F.
    + rewrite (dict_get_perm _ P).
      * now apply table_entries_get.
      * eapply Permutation_NoDup; [|exact NDk].
        apply Permutation_map. now symmetry.
  - intros name param G. apply dict_get_in in G.
    apply (Permutation_in _ P) in G. apply in_map_iff in G.
    destruct G as (spec & E & I). exists spec.
    unfold table_entry in E |- *. injection E as <- <-. auto.
Qed.

Lemma parameter_table_complete_witness :
  exists args,
    fst (MethodParameters_init example_params) = Ok args /\
    Permutation (Dict.keys args) ["steamid"; "include_appinfo"].
Proof.
  destruct (MethodParameters_init example_params) as [[args|e] log] eqn:E;
    [|discriminate E].
  exists args. split; [reflexivity|].
  exact (proj1 (proj2 (parameter_table_complete _ E))).
Defined.

Lemma parameter_type_known type :
  Dict.mem type PARAMETER_TYPES = true -> known_type type.
Proof.
  unfold Dict.mem, PARAMETER_TYPES, known_type. simpl.
  destruct (String.eqb_spec type "string"); [auto|].
  destruct (String.eqb_spec type "uint32"); [auto|].
  destruct (String.eqb_spec type "uint64"); [auto|discriminate].
Qed.

Lemma table_entry_type_known spec : known_type (p_type (snd (table_entry spec))).
Proof.
  unfold table_entry. simpl.
  destruct (Dict.mem (raw_type spec) PARAMETER_TYPES) eqn:E.
  - now apply parameter_type_known.
  - left. reflexivity.
Qed.

Lemma py_int_never_keyerror value key : py_int value <> Err (KeyError key).
Proof.
  destruct value as [|z|s|m e r]; simpl; try discriminate.
  destruct (parse_int s); discriminate.
Qed.

Lemma handler_never_keyerror type handler value key :
  known_type type ->
  Dict.get type PARAMETER_TYPES = Some handler ->
  handler value <> Err (KeyError key).
Proof.
  intros [-> | [-> | ->]]; simpl; intros [= <-].
  - destruct value; discriminate.
  - unfold uint32. pose proof (@py_int_never_keyerror value key) as N.
    destruct (py_int value) as [z|e]; [|congruence].
    destruct (z >? 4294967295); [discriminate|].
    destruct (z <? 0); discriminate.
  - unfold uint64. pose proof (@py_int_never_keyerror value key) as N.
    destruct (py_int value) as [z|e]; [|congruence].
    destruct (z >? 18446744073709551615); [discriminate|].
    destruct (z <? 0); discriminate.
Qed.

Lemma known_type_handler type :
  known_type type -> exists handler, Dict.get type PARAMETER_TYPES = Some handler.
Proof. intros [-> | [-> | ->]]; simpl; eauto. Qed.

Lemma validate_loop_never_keyerror kwargs args : forall values key,
  Forall (fun p => known_type (p_type p)) args ->
  validate_loop kwargs args values <> Err (KeyError key).
Proof.
  induction args as [|arg args IH]; intros values key F; simpl; [discriminate|].
  inversion F as [|? ? F1 F2]; subst.
  destruct (validate_arg kwargs values arg) as [values'|e] eqn:E; [now apply IH|].
  unfold validate_arg in E.
  destruct (known_type_handler F1) as [handler Hh].
  destruct (match Dict.get (p_name arg) kwargs with Some v => v | None => PyNone end)
    as [|z|s|m x r] eqn:V.
  - destruct (negb (p_optional arg)); [|discriminate]. injection E as <-. discriminate.
  - rewrite Hh in E. destruct (handler (PyInt z)) eqn:R; [discriminate|].
    injection E as <-. intros [= ->].
    exact (@handler_never_keyerror _ _ _ _ F1 Hh R).
  - rewrite Hh in E. destruct (handler (PyStr s)) eqn:R; [discriminate|].
    injection E as <-. intros [= ->].
    exact (@handler_never_keyerror _ _ _ _ F1 Hh R).
  - rewrite Hh in E. destruct (handler (PyFloat m x r)) eqn:R; [discriminate|].
    injection E as <-. intros [= ->].
    exact (@handler_never_keyerror _ _ _ _ F1 Hh R).
Qed.

(** X4. In a parameter table every type is one of [string], [uint32] and
    [uint64]; the warnings of its construction are one UnknownParameterType
    for each description, other than [key], whose declared type is none of
    the three, in the order of the descriptions; and validation against the
    table never fails for want of a type handler. *)
Theorem parameter_types_known specs args log
    (H : MethodParameters_init specs = (Ok args, log)) :
  Forall (fun p => known_type (p_type p)) (Dict.values args) /\
  log = type_warnings (described specs) /\
  (forall kwargs key, validate args kwargs <> Err (KeyError key)).
Proof.
  destruct (parameters_exact _ H) as (_ & ND & E & L).
  assert (F : Forall (fun p => known_type (p_type p)) (Dict.values args)).
  { assert (NDk : NoDup (map fst (map table_entry (described specs)))).
    { change (NoDup (Dict.keys (map table_entry (described specs)))).
      now rewrite table_entry_keys. }
    destruct (sorted_by_key_spec _ NDk) as [_ P]. rewrite <- E in P.
    apply Forall_forall. intros p I. apply in_map_iff in I.
    destruct I as (kv & <- & I). apply (Permutation_in _ P) in I.
    apply in_map_iff in I. destruct I as (spec & <- & _).
    apply table_entry_type_known. }
  split; [exact F|]. split; [exact L|].
  intros kwargs key. unfold validate. now apply validate_loop_never_keyerror.
Qed.

Lemma parameter_types_known_witness :
  snd (MethodParameters_init example_params) = [UnknownParameterType "bool"].
Proof.
  destruct (MethodParameters_init example_params) as [[args|e] log] eqn:E;
    [|discriminate E].
  rewrite (proj1 (proj2 (parameter_types_known _ E))). reflexivity.
Defined.

(** ** The order of the descriptions *)

Lemma string_ltb_irrefl a : String.ltb a a = false.
Proof.
  unfold String.ltb.
  assert (E : String.compare a a = Eq) by now apply String_as_OT.cmp_eq.
  now rewrite E.
Qed.

Lemma sorted_unique {V} (l : list (string * V)) : forall l',
  StronglySorted key_lt l -> StronglySorted key_lt l' ->
  Permutation l l' -> l = l'.
Proof.
  induction l as [|a l IH]; intros l' S S' P.
  - now apply Permutation_nil in P.
  - destruct l' as [|b l'].
    { apply Permutation_sym, Permutation_nil in P. discriminate. }
    inversion S as [|? ? S1 F1]; inversion S' as [|? ? S1' F1']; subst.
    assert (E : a = b).
    { assert (Ia : In a (b :: l')) by (eapply Permutation_in; [exact P|now left]).
      assert (Ib : In b (a :: l))
        by (eapply Permutation_in; [symmetry; exact P|now left]).
      destruct Ia as [Ea|Ia]; [now symmetry|].
      destruct Ib as [Eb|Ib]; [exact Eb|].
      rewrite Forall_forall in F1, F1'.
      pose proof (F1 _ Ib) as L1. pose proof (F1' _ Ia) as L2.
      unfold key_lt in L1, L2.
      pose proof (string_ltb_trans _ _ _ L1 L2) as L.
      rewrite string_ltb_irrefl in L. discriminate. }
    subst b. f_equal. apply IH; try assumption.
    now apply Permutation_cons_inv in P.
Qed.

Lemma permutation_filter {A} (f : A -> bool) (l l' : list A) :
  Permutation l l' -> Permutation (filter f l) (filter f l').
Proof.
  induction 1 as [|x l l' P IH|x y l|l l' l'' P1 IH1 P2 IH2]; simpl.
  - constructor.
  - destruct (f x); [now constructor|exact IH].
  - destruct (f x), (f y); try reflexivity. apply perm_swap.
  - now transitivity (filter f l').
Qed.

Lemma permutation_type_warnings specs specs' :
  Permutation specs specs' ->
  Permutation (type_warnings specs) (type_warnings specs').
Proof.
  unfold type_warnings.
  induction 1 as [|x l l' P IH|x y l|l l' l'' P1 IH1 P2 IH2]; simpl.
  - constructor.
  - now apply Permutation_app_head.
  - rewrite !app_assoc. apply Permutation_app_tail, Permutation_app_comm.
  - now transitivity
      (flat_map (fun spec => if Dict.mem (raw_type spec) PARAMETER_TYPES then []
                             else [UnknownParameterType (raw_type spec)]) l').
Qed.

(** X5. The parameter table does not depend on the order in which the
    descriptions are listed: listed in another order they build the same
    table, with the same warnings in another order. *)
Theorem parameter_table_order_independent specs specs' args log
    (P : Permutation specs specs')
    (H : MethodParameters_init specs = (Ok args, log)) :
  exists log',
    MethodParameters_init specs' = (Ok args, log') /\ Permutation log log'.
Proof.
  destruct (parameters_exact _ H) as (F & ND & -> & ->).
  assert (Pd : Permutation (described specs) (described specs'))
    by now apply permutation_filter.
  assert (F' : Forall formable (described specs'))
    by (eapply Permutation_Forall; eassumption).
  assert (ND' : NoDup (map sanitized_name (described specs'))).
  { eapply Permutation_NoDup; [|exact ND]. now apply Permutation_map. }
  exists (type_warnings (described specs')). split.
  - unfold MethodParameters_init. rewrite init_loop_skips_key.
    rewrite (@init_loop_run (described specs') [] (described_nonkey specs') F' ND')
      by reflexivity.
    cbn [bind ret app]. rewrite app_nil_r. unfold Dict.items.
    enough (Es : sorted_by_key (map table_entry (described specs'))
                 = sorted_by_key (map table_entry (described specs)))
      by now rewrite Es.
    assert (K : NoDup (map fst (map table_entry (described specs)))).
    { change (NoDup (Dict.keys (map table_entry (described specs)))).
      now rewrite table_entry_keys. }
    assert (K' : NoDup (map fst (map table_entry (described specs')))).
    { change (NoDup (Dict.keys (map table_entry (described specs')))).
      now rewrite table_entry_keys. }
    destruct (sorted_by_key_spec _ K) as [S1 P1].
    destruct (sorted_by_key_spec _ K') as [S2 P2].
    apply sorted_unique; try assumption.
    rewrite P1, P2. apply Permutation_map. now symmetry.
  - now apply permutation_type_warnings.
Qed.

Lemma parameter_table_order_independent_witness :
  fst (MethodParameters_init (rev example_params))
  = fst (MethodParameters_init example_params).
Proof.
  destruct (MethodParameters_init example_params) as [[args|e] log] eqn:E;
    [|discriminate E].
  destruct (@parameter_table_order_independent example_params (rev example_params)
              args log (Permutation_rev _) E) as (log' & -> & _).
  reflexivity.
Defined.

(** ** Validation *)

Lemma table_names d : table_ok d -> map p_name (Dict.values d) = Dict.keys d.
Proof.
  intros [_ F]. unfold Dict.values, Dict.keys. rewrite map_map.
  apply map_ext_in. intros kv I. rewrite Forall_forall in F. now apply F.
Qed.

Lemma validate_arg_supplied kwargs values arg :
  validate_arg kwargs values arg
  = match supplied kwargs (p_name arg) with
    | None => if negb (p_optional arg)
              then Err (MissingMandatoryArgument (p_name arg)) else Ok values
    | Some value =>
        match Dict.get (p_type arg) PARAMETER_TYPES with
        | None => Err (KeyError (p_type arg))
        | Some handler =>
            match handler value with
            | Ok coerced => Ok (Dict.set (p_name arg) coerced values)
            | Err e => Err e
            end
        end
    end.
Proof.
  unfold validate_arg, supplied.
  destruct (Dict.get (p_name arg) kwargs) as [[|z|s|m e r]|]; reflexivity.
Qed.

Lemma validate_loop_spec kwargs args : forall values0 values,
  NoDup (map p_name args) ->
  validate_loop kwargs args values0 = Ok values ->
  (forall k, ~ In k (map p_name args) -> Dict.get k values = Dict.get k values0) /\
  (forall p, In p args ->
     Dict.get (p_name p) values0 = None -> validated_as kwargs values p).
Proof.
  induction args as [|arg args IH]; intros values0 values ND H; simpl in H.
  - injection H as <-. split; [reflexivity|]. intros p [].
  - inversion ND as [|? ? N1 N2]; subst.
    destruct (validate_arg kwargs values0 arg) as [values1|e] eqn:E; [|discriminate].
    destruct (IH _ _ N2 H) as [Frame Each].
    rewrite validate_arg_supplied in E.
    assert (Other : forall k, k <> p_name arg ->
              Dict.get k values1 = Dict.get k values0).
    { intros k Nk. destruct (supplied kwargs (p_name arg)) as [v|].
      - destruct (Dict.get (p_type arg) PARAMETER_TYPES) as [h|]; [|discriminate].
        destruct (h v); [|discriminate]. injection E as <-.
        now apply dict_get_set_ne.
      - destruct (negb (p_optional arg)); [discriminate|]. now injection E as <-. }
    split.
    + intros k Nk. simpl in Nk. rewrite Frame by tauto. apply Other.
      intros ->. tauto.
    + intros p [<-|I] G.
      * unfold validated_as. rewrite (Frame _ N1).
        destruct (supplied kwargs (p_name arg)) as [v|].
        -- destruct (Dict.get (p_type arg) PARAMETER_TYPES) as [h|]; [|discriminate].
           destruct (h v) as [c|] eqn:Hc; [|discriminate]. injection E as <-.
           exists h, c. repeat split; auto. apply dict_get_set_eq.
        -- destruct (negb (p_optional arg)) eqn:O; [discriminate|].
           injection E as <-. apply negb_false_iff in O. auto.
      * apply Each; [exact I|]. rewrite Other; [exact G|].
        intros Eq. apply N1. rewrite <- Eq. now apply in_map.
Qed.

(** X6. When validation against a parameter table succeeds, the result
    holds, for each parameter that was supplied with a value other than
    [None], that value passed through the handler of the parameter's type;
    every other parameter is optional and has no entry; and nothing is
    entered under any other name, whatever else was supplied. *)
Theorem validate_returns_supplied specs args log kwargs values
    (H : MethodParameters_init specs = (Ok args, log))
    (Hv : validate args kwargs = Ok values) :
  (forall p, In p (Dict.values args) -> validated_as kwargs values p) /\
  (forall k, Dict.get k args = None -> Dict.get k values = None).
Proof.
  destruct (parameters_sorted _ H) as [_ T].
  pose proof (table_names T) as N. destruct T as [ND F].
  unfold validate in Hv.
  assert (NDn : NoDup (map p_name (Dict.values args))) by now rewrite N.
  destruct (@validate_loop_spec kwargs (Dict.values args) [] values NDn Hv)
    as [Frame Each].
  split.
  - intros p I. now apply Each.
  - intros k G. rewrite Frame; [reflexivity|].
    rewrite N. now apply dict_get_none_keys.
Qed.

Lemma validate_returns_supplied_witness :
  exists args values,
    fst (MethodParameters_init example_params) = Ok args /\
    validate args [("steamid", PyStr "76561197960435530"); ("format", PyStr "xml")]
    = Ok values /\
    Dict.get "format" values = None.
Proof.
  destruct (MethodParameters_init example_params) as [[args|e] log] eqn:E;
    [|discriminate E].
  destruct (validate args [("steamid", PyStr "76561197960435530");
                           ("format", PyStr "xml")]) as [values|e] eqn:V.
  - exists args, values. split; [reflexivity|]. split; [exact V|].
    apply (proj2 (@validate_returns_supplied example_params args log _ values E V)).
    vm_compute in E. injection E as <- _. reflexivity.
  - exfalso. vm_compute in E. injection E as <- _. vm_compute in V. discriminate V.
Defined.

Lemma validate_loop_accepts kwargs args : forall values0,
  (forall p, In p args -> p_optional p = false ->
             supplied kwargs (p_name p) <> None) ->
  (forall p value, In p args -> supplied kwargs (p_name p) = Some value ->
     exists handler coerced,
       Dict.get (p_type p) PARAMETER_TYPES = Some handler /\
       handler value = Ok coerced) ->
  exists values, validate_loop kwargs args values0 = Ok values.
Proof.
  induction args as [|arg args IH]; intros values0 Hm Hs; simpl; [eauto|].
  rewrite validate_arg_supplied.
  destruct (supplied kwargs (p_name arg)) as [v|] eqn:S.
  - destruct (Hs arg v (or_introl eq_refl) S) as (h & c & -> & ->).
    apply IH; intros; [apply Hm|eapply Hs]; simpl; eauto.
  - destruct (p_optional arg) eqn:O; simpl.
    + apply IH; intros; [apply Hm|eapply Hs]; simpl; eauto.
    + exfalso. now apply (Hm arg (or_introl eq_refl) O).
Qed.

(** X7. Validation succeeds as soon as every mandatory parameter of the
    table is supplied with a value other than [None] and every supplied
    value is accepted by the handler of its parameter's type. *)
Theorem validate_accepts args kwargs
    (Hmandatory : forall p, In p (Dict.values args) -> p_optional p = false ->
                            supplied kwargs (p_name p) <> None)
    (Haccepted : forall p value, In p (Dict.values args) ->
                   supplied kwargs (p_name p) = Some value ->
                   exists handler coerced,
                     Dict.get (p_type p) PARAMETER_TYPES = Some handler /\
                     handler value = Ok coerced) :
  exists values, validate args kwargs = Ok values.
Proof. unfold validate. now apply validate_loop_accepts. Qed.

Lemma validate_accepts_witness :
  exists values,
    validate [("count", {| p_name := "count"; p_type := "uint32";
                           p_optional := true; p_description := "" |});
              ("steamid", {| p_name := "steamid"; p_type := "uint64";
                             p_optional := false; p_description := "" |})]
             [("steamid", PyInt 76561197960435530); ("count", PyNone)]
    = Ok values.
Proof.
  apply validate_accepts.
  - intros p [<-|[<-|[]]]; simpl; [discriminate|]. intros _. discriminate.
  - intros p value [<-|[<-|[]]]; simpl; [discriminate|].
    intros [= <-]. exists uint64, (PyInt 76561197960435530). split; reflexivity.
Defined.

(** ** Synthesised methods *)

Lemma lift_ok_inv {A} (r : result A) a log : lift r = (Ok a, log) -> r = Ok a.
Proof. unfold lift. now intros [= ->]. Qed.

Lemma make_method_inv spec method log :
  make_method spec = (Ok method, log) ->
  exists args,
    _ensure_identifier (ms_name spec) = Ok (m_name method) /\
    MethodParameters_init (ms_parameters spec) = (Ok args, log) /\
    compile_def (m_name method) args = Ok tt /\
    m_args method = args /\
    m_version method = ms_version spec /\
    m_httpmethod method = ms_httpmethod spec.
Proof.
  unfold make_method. intros H.
  apply bind_ok_inv in H. destruct H as (name & l1 & l2 & Hn & H & ->).
  apply bind_ok_inv in H. destruct H as (args & l3 & l4 & Ha & H & ->).
  apply bind_ok_inv in H. destruct H as ([] & l5 & l6 & Hc & H & ->).
  injection H as <- <-. injection Hn as Hn <-. injection Hc as Hc <-.
  exists args. cbn. rewrite app_nil_r. repeat split; assumption.
Qed.

(** X8. Every name a synthesised method puts into generated code, its own
    and those of its parameters, has the form [[A-Za-z_][A-Za-z0-9_]*], is
    no reserved word, and no parameter is called [self]; the method keeps
    the version and the HTTP verb of its description. *)
Theorem make_method_names_are_identifiers spec method log
    (H : make_method spec = (Ok method, log)) :
  _ensure_identifier (ms_name spec) = Ok (m_name method) /\
  is_identifier (m_name method) = true /\
  is_reserved (m_name method) = false /\
  (forall name, In name (Dict.keys (m_args method)) ->
     is_identifier name = true /\ is_reserved name = false /\ name <> "self") /\
  m_version method = ms_version spec /\
  m_httpmethod method = ms_httpmethod spec.
Proof.
  destruct (@make_method_inv _ _ _ H) as (args & Hn & Ha & Hc & -> & Hv & Hh).
  split; [exact Hn|]. split; [exact (ensure_identifier_is_identifier _ Hn)|].
  unfold compile_def in Hc.
  destruct (is_reserved (m_name method)); [discriminate|].
  split; [reflexivity|]. split; [|split; assumption].
  intros name I.
  destruct (find _ (Dict.keys args)) eqn:Fd; [discriminate|].
  pose proof (find_none _ _ Fd _ I) as R. apply orb_false_iff in R.
  destruct R as [R1 R2]. apply String.eqb_neq in R2.
  split; [|split; assumption].
  destruct (parameters_exact _ Ha) as (F & ND & -> & _).
  assert (NDk : NoDup (map fst (map table_entry (described (ms_parameters spec))))).
  { change (NoDup (Dict.keys (map table_entry (described (ms_parameters spec))))).
    now rewrite table_entry_keys. }
  destruct (sorted_by_key_spec _ NDk) as [_ P].
  apply (Permutation_in _ (Permutation_map fst P)) in I.
  change (In name (Dict.keys (map table_entry (described (ms_parameters spec))))) in I.
  rewrite table_entry_keys in I. apply in_map_iff in I.
  destruct I as (s & <- & I). rewrite Forall_forall in F.
  exact (ensure_identifier_is_identifier _ (F s I)).
Qed.

Lemma make_method_names_are_identifiers_witness :
  exists method,
    fst (make_method (example_method "Get News-For App (v2)" 2)) = Ok method /\
    m_name method = "GetNewsForAppv2" /\
    is_identifier (m_name method) = true.
Proof.
  destruct (make_method (example_method "Get News-For App (v2)" 2))
    as [[method|e] log] eqn:E; [|discriminate E].
  exists method. split; [reflexivity|].
  destruct (@make_method_names_are_identifiers _ _ _ E) as (Hn & Hi & _).
  split; [|exact Hi]. vm_compute in Hn. now injection Hn.
Defined.

(** ** Version resolution in general *)





Lemma latest_attained name meths : forall latest v,
  fold_left (latest_step name) meths latest = Some v ->
  v = match latest with Some l => l | None => 0 end \/
  In v (versions_declared name meths).
Proof.
  unfold versions_declared.
  induction meths as [|x meths IH]; intros latest v; simpl.
  - intros ->. now left.
  - intros H. destruct (IH _ _ H) as [E|I].
    + unfold latest_step in E.
      destruct (String.eqb (m_name x) name); simpl; [|now left].
      destruct (Z.max_spec (m_version x)
                  (match latest with Some l => l | None => 0 end)) as [[_ M]|[_ M]];
        rewrite M in E; auto.
    + destruct (String.eqb (m_name x) name); simpl; auto.
Qed.

(** X11. With no negative version number in the listing, a warning about a
    stale pin is only ever emitted for a method name that is pinned: it
    reports the pin, which is the version selected for the name, and a
    declared version newer than the pin.  Names without a pin never cause
    one.  When [type] can create the class, the interface is made with
    these warnings and binds the versions they report. *)
Theorem stale_warning_only_for_pins spec versions meths log
    (Hmake : make_methods (is_methods spec) = (Ok meths, log))
    (Htype : creatable (is_name spec) (methods (resolved versions meths)))
    (Hpos : Forall (fun m => 0 <= m_version m) meths) :
  exists interface stale,
    make_interface spec versions = (Ok interface, (log ++ stale)%list) /\
    forall w, In w stale ->
      exists name pinned latest,
        w = StaleVersionPinned (is_name spec) name pinned latest /\
        Dict.get name versions = Some pinned /\
        option_map m_version (bound_method interface name) = Some pinned /\
        pinned < latest /\
        In latest (versions_declared name meths).
Proof.
  exists (interface_of spec (resolved versions meths)),
         (stale_warnings (is_name spec) (resolved versions meths)).
  split; [now apply make_interface_ok|].
  intros w I. apply stale_warnings_spec in I.
  destruct I as (c & latest & Hc & Hl & Lt & ->).
  destruct (@select_origin versions (m_name c) meths None c Hc) as [|[Ic _]];
    [discriminate|].
  rewrite Forall_forall in Hpos. pose proof (Hpos _ Ic) as Pc.
  assert (D : In latest (versions_declared (m_name c) meths)).
  { destruct (latest_attained _ _ _ Hl) as [E|D]; [simpl in E; lia|exact D]. }
  exists (m_name c), (m_version c), latest.
  rewrite bound_method_resolved, Hc. repeat split; auto.
  destruct (Dict.get (m_name c) versions) as [p|] eqn:P.
  - f_equal. symmetry.
    apply (@select_pinned_version versions (m_name c) p P meths None c Hc).
    discriminate.
  - exfalso. unfold versions_declared in D. apply in_map_iff in D.
    destruct D as (x & Ex & Ix).
    pose proof (proj2 (@select_unpinned_highest versions (m_name c) P meths None c Hc)
                  x Ix).
    lia.
Qed.

Lemma stale_warning_only_for_pins_witness :
  exists interface,
    make_interface three_versions [] = (Ok interface, []).
Proof.
  assert (Hmake : make_methods (is_methods three_versions)
                  = (Ok (methods_of three_versions), [])) by reflexivity.
  assert (Hpos : Forall (fun m => 0 <= m_version m) (methods_of three_versions)).
  { vm_compute. repeat constructor; discriminate. }
  assert (Htype : creatable (is_name three_versions)
                    (methods (resolved [] (methods_of three_versions)))).
  { split; [reflexivity|]. intros n [<-|[<-|[<-|[]]]]; reflexivity. }
  destruct (@stale_warning_only_for_pins three_versions [] (methods_of three_versions)
              [] Hmake Htype Hpos) as (interface & stale & H & Hw).
  exists interface. rewrite H. f_equal. simpl.
  destruct stale as [|w stale]; [reflexivity|].
  destruct (Hw w (or_introl eq_refl)) as (n & p & l & _ & Hp & _). discriminate Hp.
Defined.

(** X12. Iterating over a synthesised interface yields each bound method
    exactly once: the methods yielded have pairwise different names, and a
    method is yielded exactly when it is the one bound under its name. *)
Theorem interface_iteration spec versions interface log bound
    (H : make_interface spec versions = (Ok interface, log))
    (Hiter : interface_iter interface = Ok bound) :
  NoDup (map m_name bound) /\
  forall m, In m bound <-> bound_method interface (m_name m) = Some m.
Proof.
  assert (F : fst (make_interface spec versions) = Ok interface) by now rewrite H.
  apply make_interface_fst in F. destruct F as [-> _].
  destruct (resolve_fold versions (methods_of spec) no_resolution_ok) as [Hok _].
  fold (resolved versions (methods_of spec)) in Hok.
  apply (interface_iter_of _ Hok) in Hiter. subst bound.
  destruct Hok as [ND K].
  assert (N : map m_name (Dict.values (methods (resolved versions (methods_of spec))))
              = Dict.keys (methods (resolved versions (methods_of spec)))).
  { unfold Dict.values, Dict.keys. rewrite map_map. apply map_ext_in.
    intros [k c] I. simpl. apply dict_in_get in I; [|exact ND].
    now apply (K k c). }
  split; [now rewrite N|].
  intros m. rewrite bound_method_of by (split; assumption). split.
  - intros I. apply in_map_iff in I. destruct I as ([k c] & <- & I). simpl.
    apply dict_in_get in I; [|exact ND].
    destruct (K _ _ I) as [-> _]. exact I.
  - intros G. apply dict_get_in in G. apply in_map_iff.
    exists (m_name m, m). auto.
Qed.

Lemma interface_iteration_witness :
  exists interface bound,
    fst (make_interface three_versions []) = Ok interface /\
    interface_iter interface = Ok bound /\
    NoDup (map m_name bound).
Proof.
  destruct (make_interface three_versions []) as [[interface|e] log] eqn:E;
    [|discriminate E].
  destruct (interface_iter interface) as [bound|e] eqn:I.
  - exists interface, bound. split; [reflexivity|]. split; [exact I|].
    exact (proj1 (@interface_iteration _ _ _ _ _ E I)).
  - exfalso. vm_compute in E. injection E as <- _. discriminate I.
Defined.

(** ** The catalogue *)

(* With none of the names that [type] reads declared, [type] accepts a
   class whatever the pins are, once it has accepted it under some. *)
Lemma creatable_unreserved (meths : list Method) (old new : dict Z) x :
  (forall m, In m meths -> ~ In (m_name m) type_reads) ->
  creatable x (methods (resolved old meths)) ->
  creatable x (methods (resolved new meths)).
Proof.
  intros H [Hn _]. split; [exact Hn|]. intros n I.
  apply undeclared_unbound. intros m Im E. apply (H m Im). now rewrite E.
Qed.

(** X13. In a listing none of whose methods is called [__slots__],
    [__qualname__] or [__classcell__], whether the catalogue can be built
    does not depend on the version pins: built under other pins it succeeds
    as well, and holds a class under exactly the same names, each made from
    the same interface description. *)
Theorem catalogue_independent_of_pins api_list v1 v2 module log
    (H : make_interfaces api_list v1 = (Ok module, log))
    (Hnames : none_called type_reads api_list) :
  exists module' log',
    make_interfaces api_list v2 = (Ok module', log') /\
    forall x i,
      Dict.get x module = Some (ModClass i) ->
      exists spec,
        In spec (interfaces api_list) /\ is_name spec = x /\
        i = class_of v1 spec /\
        Dict.get x module' = Some (ModClass (class_of v2 spec)).
Proof.
  apply make_interfaces_fst in H.
  destruct (@make_interfaces_rebuild (interfaces api_list) v1 v2
              (interfaces api_list) first_module first_module module
              (incl_refl _)
              (fun spec Hin =>
                 @creatable_unreserved (methods_of spec)
                   (pins_for v1 (is_name spec)) (pins_for v2 (is_name spec))
                   (is_name spec) (fun m => Hnames spec m Hin))
              H (first_module_same _ _ _)
              first_module_nodup first_module_nodup)
    as (module' & F' & R & _).
  destruct (@make_interfaces_of_fst _ _ _ F') as [log' E].
  exists module', log'. split; [exact E|].
  intros x i G. specialize (R x). rewrite G in R.
  destruct (Dict.get x module') as [[| |i']|]; try contradiction.
  destruct R as (spec & I & N & -> & ->). eauto.
Qed.

Lemma catalogue_independent_of_pins_witness :
  exists module' log',
    make_interfaces news_listing (pin_news 1) = (Ok module', log') /\
    Dict.get "ISteamNews" module'
    = Some (ModClass (class_of (pin_news 1) news_interface)).
Proof.
  assert (H : make_interfaces news_listing []
              = (Ok (Dict.set "ISteamNews" (ModClass (class_of [] news_interface))
                       (Dict.set "__all__" (ModAll ["ISteamNews"]) first_module)),
                 [])) by reflexivity.
  assert (P : none_called type_reads news_listing).
  { intros spec m [<-|[]] Im. vm_compute in Im.
    destruct Im as [<-|[<-|[]]]; vm_compute; intuition discriminate. }
  destruct (@catalogue_independent_of_pins news_listing [] (pin_news 1) _ _ H P)
    as (module' & log' & E & G).
  exists module', log'. split; [exact E|].
  destruct (G "ISteamNews" (class_of [] news_interface) eq_refl)
    as (spec & [<-|[]] & _ & _ & R).
  exact R.
Defined.

Lemma for_each_add_fails versions spec e specs : forall module,
  In spec specs ->
  fst (make_methods (is_methods spec)) = Err e ->
  exists e', fst (for_each (add_interface versions) specs module) = Err e'.
Proof.
  induction specs as [|s specs IH]; intros module I E; [contradiction|].
  rewrite for_each_fst.
  destruct (fst (add_interface versions module s)) as [module'|e'] eqn:A;
    [|eauto].
  destruct I as [->|I]; [|now apply IH].
  exfalso. apply add_interface_fst in A. destruct A as (_ & _ & _ & [log Hmk] & _).
  rewrite Hmk in E. discriminate.
Qed.

(** X14. One method description that cannot be synthesised, in any
    interface of the listing, makes the construction of the whole catalogue
    fail: no partial catalogue is returned. *)
Theorem catalogue_fails_whole api_list versions spec e
    (Hin : In spec (interfaces api_list))
    (Herr : fst (make_methods (is_methods spec)) = Err e) :
  exists e', fst (make_interfaces api_list versions) = Err e'.
Proof.
  unfold make_interfaces. now apply (@for_each_add_fails versions spec e).
Qed.

Lemma catalogue_fails_whole_witness :
  exists e', fst (make_interfaces broken_listing []) = Err e'.
Proof.
  apply (@catalogue_fails_whole broken_listing []
           {| is_name := "IBroken";
              is_methods := [example_method "Get" 1; example_method "123" 1] |}
           (InvalidIdentifier "123")).
  - simpl. auto.
  - reflexivity.
Defined.

(* Names not listed keep what the module held; listed names hold the class
   of their description. *)
Lemma for_each_add_classes versions specs : forall module module',
  fst (for_each (add_interface versions) specs module) = Ok module' ->
  NoDup (map is_name specs) ->
  (forall spec, In spec specs ->
     Dict.get (is_name spec) module' = Some (ModClass (class_of versions spec))) /\
  (forall x, ~ In x (map is_name specs) ->
     (forall i, Dict.get x module <> Some (ModClass i)) ->
     forall i, Dict.get x module' <> Some (ModClass i)) /\
  (forall x, ~ In x (map is_name specs) -> x <> "__all__" ->
     Dict.get x module' = Dict.get x module).
Proof.
  induction specs as [|s specs IH]; intros module module' H ND.
  - simpl in H. injection H as <-. repeat split; auto. intros spec [].
  - rewrite for_each_fst in H.
    destruct (fst (add_interface versions module s)) as [m1|e] eqn:A; [|discriminate].
    apply add_interface_fst in A. destruct A as (names & Hall & -> & _).
    inversion ND as [|? ? N1 N2]; subst.
    destruct (IH _ _ H N2) as (Listed & Unlisted & Frame).
    assert (Hs : Dict.get (is_name s) module' = Some (ModClass (class_of versions s))).
    { destruct specs as [|s' specs'].
      - simpl in H. injection H as <-. apply dict_get_set_eq.
      - (* a further description needs __all__ to be the list still *)
        assert (NA : is_name s <> "__all__").
        { intros Eq. rewrite for_each_fst in H.
          destruct (fst (add_interface versions _ s')) as [m2|e] eqn:A2;
            [|discriminate].
          apply add_interface_fst in A2. destruct A2 as (n2 & Hall2 & _).
          rewrite Eq, dict_get_set_eq in Hall2. discriminate. }
        rewrite Frame by assumption. apply dict_get_set_eq. }
    split; [|split].
    + intros spec [<-|I]; [exact Hs|now apply Listed].
    + intros x Nx Hx. simpl in Nx. apply Unlisted; [tauto|].
      intros i. rewrite !dict_get_set.
      destruct (String.eqb_spec x (is_name s)) as [Eq|];
        [exfalso; apply Nx; left; now symmetry|].
      destruct (String.eqb_spec x "__all__"); [discriminate|apply Hx].
    + intros x Nx Na. simpl in Nx. rewrite Frame by tauto.
      rewrite !dict_get_set.
      destruct (String.eqb_spec x (is_name s)) as [Eq|];
        [exfalso; apply Nx; left; now symmetry|].
      destruct (String.eqb_spec x "__all__"); [contradiction|reflexivity].
Qed.

Lemma first_module_no_class x i : Dict.get x first_module <> Some (ModClass i).
Proof.
  intros E. apply dict_get_in in E. simpl in E.
  repeat (destruct E as [E|E]; [discriminate|]). exact E.
Qed.

Section Indexing.
Variable Resp : Type.
Variable python_instantiate : Interface -> result Interface.
Variable python_pin_by_name :
  VersionPins -> Interface -> dict Z -> result VersionPins.
Variable key : option string.
Variable format : Decoder Resp.

(** X15. A client can be bound to the catalogue of a listing whose
    interface names are pairwise different and none of whose methods is
    called [__new__], [__init__] or [__setattr__]; indexed by each of those
    names it gives the instance of the class synthesised from that
    interface's description, and indexing by any other name raises
    KeyError. *)
Theorem listed_interfaces_indexable api_list versions module log
    (H : make_interfaces api_list versions = (Ok module, log))
    (Hnames : NoDup (map is_name (interfaces api_list)))
    (Hhooks : none_called construction_hooks api_list) :
  exists self,
    API_with python_instantiate key format module = Ok self /\
    (forall spec, In spec (interfaces api_list) ->
       API_getitem self (is_name spec) = Ok (class_of versions spec)) /\
    (forall x, ~ In x (map is_name (interfaces api_list)) ->
       API_getitem self x = Err (KeyError x)).
Proof.
  unfold API_with.
  rewrite (@built_module_binds python_instantiate _ _ _ _ H Hhooks).
  eexists. split; [reflexivity|].
  destruct (@built_module _ _ _ _ H) as [ND _].
  apply make_interfaces_fst in H.
  destruct (for_each_add_classes _ _ _ H Hnames) as (Listed & Unlisted & _).
  unfold API_getitem. cbn [api_interfaces]. split.
  - intros spec I. rewrite classes_of_get by exact ND.
    now rewrite (Listed spec I).
  - intros x Nx. rewrite classes_of_get by exact ND.
    pose proof (Unlisted x Nx (first_module_no_class x)) as U.
    destruct (Dict.get x module) as [[| |i]|]; try reflexivity.
    exfalso. now apply (U i).
Qed.

(* Reading the pins back succeeds when no method replaces a hook. *)
Lemma pin_loop_total (entries : list Interface) : forall pins0,
  (forall i, In i entries ->
     exists spec st, i = interface_of spec st /\ resolution_ok st /\
                     Dict.get "name" (methods st) = None /\
                     Dict.get "__iter__" (methods st) = None /\
                     Dict.get "__getattribute__" (methods st) = None) ->
  exists pins, pin_loop python_pin_by_name entries pins0 = Ok pins.
Proof.
  induction entries as [|i entries IH]; intros pins0 K; simpl; [eauto|].
  destruct (K i (or_introl eq_refl)) as (spec & st & -> & Hok & Nn & Ni & Ng).
  unfold pin_interface, interface_iter, Dict.mem.
  rewrite (attrs_get spec "__iter__" Hok), Ni.
  rewrite (attrs_get spec "__getattribute__" Hok), Ng.
  cbn [Dict.get String.eqb Ascii.eqb Bool.eqb].
  rewrite (interface_name_of spec Hok Nn).
  apply IH. intros i' I'. apply K. now right.
Qed.

Lemma pin_versions_total api_list versions module log self :
  none_called hook_names api_list ->
  make_interfaces api_list versions = (Ok module, log) ->
  API_with python_instantiate key format module = Ok self ->
  exists pins, pin_versions python_pin_by_name self = Ok pins.
Proof.
  intros Hplain H Hself.
  assert (Hc : none_called construction_hooks api_list).
  { apply (none_called_incl (names := hook_names)); [|exact Hplain].
    intros n [<-|[<-|[<-|[]]]]; simpl; auto 10. }
  unfold API_with in Hself.
  rewrite (@built_module_binds python_instantiate _ _ _ _ H Hc) in Hself.
  injection Hself as <-. unfold pin_versions. cbn [api_interfaces].
  destruct (@built_module _ _ _ _ H) as [ND K].
  apply pin_loop_total. intros i I.
  apply in_map_iff in I. destruct I as ([k i'] & <- & I). cbn [snd].
  apply dict_in_get in I; [|apply classes_of_nodup].
  rewrite classes_of_get in I by exact ND.
  destruct (Dict.get k module) as [[| |i1]|] eqn:G; try discriminate.
  injection I as ->.
  destruct (K k i' G) as (spec & Hin & Hn & ->).
  exists spec, (resolved (pins_for versions (is_name spec)) (methods_of spec)).
  split; [reflexivity|]. split; [|split; [|split]].
  - apply (resolve_fold (pins_for versions (is_name spec)) (methods_of spec)
                        no_resolution_ok).
  - apply undeclared_unbound. intros m Im E.
    apply (Hplain spec m Hin Im). rewrite E. simpl. auto.
  - apply undeclared_unbound. intros m Im E.
    apply (Hplain spec m Hin Im). rewrite E. simpl. auto.
  - apply undeclared_unbound. intros m Im E.
    apply (Hplain spec m Hin Im). rewrite E. simpl. auto.
Qed.

(** X16. For a client bound to a catalogue in which no method is called
    [name], [__iter__], [__getattribute__], [__new__], [__init__] or
    [__setattr__], [pin_versions] returns a mapping, and the mapping
    reports, for every interface and every method name, exactly the version
    the catalogue binds under that name, and no entry for a name it binds
    nothing under. *)
Theorem pin_versions_reports_bound api_list versions module log self
    (Hplain : none_called hook_names api_list)
    (H : make_interfaces api_list versions = (Ok module, log))
    (Hself : API_with python_instantiate key format module = Ok self) :
  exists pins,
    pin_versions python_pin_by_name self = Ok pins /\
    forall interface method,
      Dict.get method (pins_for pins interface)
      = catalog_version (api_interfaces self) interface method.
Proof.
  destruct (@pin_versions_total _ _ _ _ _ Hplain H Hself) as [pins Hpins].
  exists pins. split; [exact Hpins|].
  destruct (@pin_versions_lookup Resp python_instantiate python_pin_by_name
              key format _ _ _ _ _ _ Hplain H Hself Hpins) as [-> G].
  exact G.
Qed.


End Indexing.

Lemma listed_interfaces_indexable_witness :
  exists self,
    API_with example_instantiate None (text_format "json")
      (Dict.set "ISteamNews" (ModClass (class_of [] news_interface))
         (Dict.set "__all__" (ModAll ["ISteamNews"]) first_module)) = Ok self /\
    API_getitem self "ISteamNews" = Ok (class_of [] news_interface) /\
    API_getitem self "__all__" = Err (KeyError "__all__").
Proof.
  assert (H : make_interfaces news_listing []
              = (Ok (Dict.set "ISteamNews" (ModClass (class_of [] news_interface))
                       (Dict.set "__all__" (ModAll ["ISteamNews"]) first_module)),
                 [])) by reflexivity.
  assert (Hnames : NoDup (map is_name (interfaces news_listing))).
  { repeat constructor; simpl; tauto. }
  assert (P : none_called construction_hooks news_listing).
  { intros spec m [<-|[]] Im. vm_compute in Im.
    destruct Im as [<-|[<-|[]]]; vm_compute; intuition discriminate. }
  destruct (@listed_interfaces_indexable string example_instantiate None
              (text_format "json") news_listing [] _ _ H Hnames P)
    as (self & Hself & Listed & Unlisted).
  exists self. split; [exact Hself|]. split.
  - apply (Listed news_interface). simpl. auto.
  - apply Unlisted. simpl. intuition discriminate.
Defined.

Lemma pin_versions_reports_bound_witness :
  exists pins,
    pin_versions example_pin_by_name
      {| api_key := None; api_format := text_format "json";
         api_interfaces_module := [];
         api_interfaces := [("ISteamNews", class_of (pin_news 1) news_interface)] |}
    = Ok pins /\
    Dict.get "GetNewsForApp" (pins_for pins "ISteamNews") = Some 1.
Proof.
  pose (module := Dict.set "ISteamNews"
                    (ModClass (class_of (pin_news 1) news_interface))
                    (Dict.set "__all__" (ModAll ["ISteamNews"]) first_module)).
  assert (H : make_interfaces news_listing (pin_news 1)
              = (Ok module, [StaleVersionPinned "ISteamNews" "GetNewsForApp" 1 2]))
    by reflexivity.
  assert (P : none_called hook_names news_listing).
  { intros spec m [<-|[]] Im. vm_compute in Im.
    destruct Im as [<-|[<-|[]]]; vm_compute; intuition discriminate. }
  destruct (@pin_versions_reports_bound string example_instantiate
              example_pin_by_name None (text_format "json")
              news_listing (pin_news 1) module _
              {| api_key := None; api_format := text_format "json";
                 api_interfaces_module := module;
                 api_interfaces := classes_of module |}
              P H eq_refl) as (pins & Hpins & G).
  exists pins. split; [exact Hpins|].
  rewrite (G "ISteamNews" "GetNewsForApp"). reflexivity.
Defined.

(** ** Requests *)

Section MoreRequestFacts.
Variable Resp : Type.
Variable python_instantiate : Interface -> result Interface.
Variable session_request : HttpRequest -> result string.
Variable json_loads : string -> result Resp.
Variable etree_fromstring : string -> result Resp.
Variable vdf_loads : string -> result Resp.
Variable api_list_of : Resp -> result ApiList.

Implicit Types (self : API Resp) (w : World) (l : loc).

(* params = {} *)
Lemma request_fresh self http_method interface method version format w :
  request session_request self http_method interface method version None format w
  = request session_request self http_method interface method version
            (Some (next_loc w)) format (snd (alloc [] w)).
Proof. reflexivity. Qed.

Lemma outgoing_empty self (decoder : Decoder Resp) :
  outgoing self decoder []
  = ("format", PyStr (format_tag decoder))
      :: match truthy_key (api_key self) with
         | Some key => [("key", PyStr key)]
         | None => []
         end.
Proof. unfold outgoing. simpl. now destruct (truthy_key (api_key self)). Qed.

(** X17. A request made without a parameter mapping sends exactly the
    [format] entry and, when the client's key is neither missing nor empty,
    the [key] entry; it leaves every dictionary that existed untouched. *)
Theorem request_without_params
    self http_method interface method version format w
    (Hformat : In (format_tag (selected_decoder self format)) API_RESPONSE_FORMATS) :
  let out := request session_request self http_method interface method
                     version None format w in
  exists rq,
    sent (snd out) = (sent w ++ [rq])%list /\
    rq_params rq
    = ("format", PyStr (format_tag (selected_decoder self format)))
        :: match api_key self with
           | Some EmptyString | None => []
           | Some key => [("key", PyStr key)]
           end /\
    forall l, (l < next_loc w)%nat -> store (snd out) l = store w l.
Proof.
  intros out. subst out. rewrite request_fresh.
  destruct (request_permitted session_request self http_method interface method
              version (next_loc w) format (snd (alloc [] w)) Hformat)
    as (S & _ & St & _).
  eexists. split; [exact S|]. split.
  - cbn [rq_params alloc snd store]. rewrite Nat.eqb_refl, outgoing_empty.
    unfold truthy_key. now destruct (api_key self) as [[|c k]|].
  - intros l Hl. rewrite St.
    destruct (Nat.eqb_spec l (next_loc w)); [lia|].
    cbn [alloc snd store]. destruct (Nat.eqb_spec l (next_loc w)); [lia|reflexivity].
Qed.

(** X18. A request that passes the format check makes exactly one
    transport call, to the URL [api_root/<interface>/<method>/v<version>/]
    with the given HTTP verb; when the transport fails the request fails
    with the transport's error, and otherwise it returns what the selected
    decoder makes of the response text. *)
Theorem request_returns_decoded
    self http_method interface method version params format w
    (Hformat : In (format_tag (selected_decoder self format)) API_RESPONSE_FORMATS) :
  let out := request session_request self http_method interface method
                     version params format w in
  exists rq,
    sent (snd out) = (sent w ++ [rq])%list /\
    rq_method rq = http_method /\
    rq_url rq = api_root ++ interface ++ "/" ++ method ++ "/v"
                         ++ string_of_Z version ++ "/" /\
    fst out = match session_request rq with
              | Ok text => decode (selected_decoder self format) text
              | Err e => Err e
              end.
Proof.
  intros out. subst out. destruct params as [l|].
  - destruct (request_permitted session_request self http_method interface method
                version l format w Hformat) as (S & _ & _ & R).
    eexists. split; [exact S|]. split; [reflexivity|]. split; [reflexivity|exact R].
  - rewrite request_fresh.
    destruct (request_permitted session_request self http_method interface method
                version (next_loc w) format (snd (alloc [] w)) Hformat)
      as (S & _ & _ & R).
    eexists. split; [exact S|]. split; [reflexivity|]. split; [reflexivity|exact R].
Qed.

(** X19. The decorator [api_response_format] accepts exactly the formats
    json, xml and vdf, and a formatter it has produced is never refused by
    [request]: the transport call is made. *)
Theorem decorated_formatter_accepted
    format function self http_method interface method version params w :
  (In format API_RESPONSE_FORMATS <->
   api_response_format format function
   = Ok {| format_tag := format; decode := function |}) /\
  (~ In format API_RESPONSE_FORMATS <->
   api_response_format format function = Err (BadResponseFormat format)) /\
  (forall decoder,
     api_response_format format function = Ok decoder ->
     exists rq,
       sent (snd (request session_request self http_method interface method
                          version params (Some decoder) w))
       = (sent w ++ [rq])%list).
Proof.
  unfold api_response_format.
  destruct (existsb (String.eqb format) API_RESPONSE_FORMATS) eqn:E; simpl.
  - apply permitted_format in E. split; [|split].
    + split; [reflexivity|intros _; exact E].
    + split; [intros N; contradiction|discriminate].
    + intros decoder [= <-].
      destruct (@request_returns_decoded self http_method interface method version
                  params (Some {| format_tag := format; decode := function |}) w E)
        as (rq & S & _).
      eauto.
  - assert (N : ~ In format API_RESPONSE_FORMATS).
    { intros I. apply permitted_format in I. congruence. }
    split; [|split].
    + split; [intros I; contradiction|discriminate].
    + split; [reflexivity|intros _; exact N].
    + intros decoder. discriminate.
Qed.

(* What the constructor stores in the client it returns. *)
Lemma API_with_inv key (format : Decoder Resp) module self :
  API_with python_instantiate key format module = Ok self ->
  api_key self = key /\ api_format self = format /\
  api_interfaces_module self = module.
Proof.
  unfold API_with.
  destruct (_bind_interfaces python_instantiate module); [|discriminate].
  now intros [= <-].
Qed.

Lemma API_init_inv key format versions interfaces w self :
  fst (fst (API_init python_instantiate session_request json_loads
                     etree_fromstring vdf_loads api_list_of
                     key format versions interfaces w)) = Ok self ->
  api_key self = key /\
  api_format self = chosen_format json_loads etree_fromstring vdf_loads format.
Proof.
  unfold API_init. destruct interfaces as [module|].
  - cbn [fst lift]. intros H. apply API_with_inv in H. tauto.
  - destruct (request _ _ _ _ _ _ _ _ _) as [[response|e] w'];
      cbn [fst raise]; [|discriminate].
    destruct (api_list_of response) as [api_list|e]; cbn [bind lift fst];
      [|discriminate].
    destruct (make_interfaces api_list _) as [[module|e] log]; cbn [fst];
      [|discriminate].
    intros H. apply API_with_inv in H. tauto.
Qed.

(** X20. A client constructed with a format name other than json, xml and
    vdf, with or without prebuilt interfaces, keeps the text as its
    formatter: every request it makes with its own formatter fails with
    InvalidDecoder before anything is sent. *)
Theorem unknown_format_name_rejected
    key name versions interfaces w0 self
    http_method interface method version params w
    (Hname : ~ In name API_RESPONSE_FORMATS)
    (Hinit : fst (fst (API_init python_instantiate session_request json_loads
                                etree_fromstring vdf_loads api_list_of
                                key (inl name) versions interfaces w0)) = Ok self) :
  let out := request session_request self http_method interface method
                     version params None w in
  (exists tag, fst out = Err (InvalidDecoder tag)) /\ sent (snd out) = sent w.
Proof.
  intros out. apply API_init_inv in Hinit. destruct Hinit as [_ Hformat].
  assert (T : format_tag (selected_decoder self None)
              = "<built-in method format of str object>").
  { unfold selected_decoder. rewrite Hformat. unfold chosen_format.
    destruct (String.eqb_spec name "json") as [->|]; [exfalso; apply Hname; simpl; auto|].
    destruct (String.eqb_spec name "xml") as [->|]; [exfalso; apply Hname; simpl; auto|].
    destruct (String.eqb_spec name "vdf") as [->|]; [exfalso; apply Hname; simpl; auto|].
    reflexivity. }
  assert (N : ~ In (format_tag (selected_decoder self None)) API_RESPONSE_FORMATS).
  { rewrite T. simpl. intuition discriminate. }
  destruct (request_rejected session_request self http_method interface method
              version params None w N) as (F & S & _).
  split; [eexists; exact F|exact S].
Qed.

(** X21. Without prebuilt interfaces the constructor makes exactly one
    request, a GET of [ISteamWebAPIUtil/GetSupportedAPIList/v1], always in
    the JSON format whatever formatter the client was given, carrying the
    client's key when it has one; a transport failure fails the
    construction with the same error.  With prebuilt interfaces it makes no
    request at all. *)
Theorem discovery_request_is_json key format versions w :
  (let out := API_init python_instantiate session_request json_loads
                       etree_fromstring vdf_loads
                       api_list_of key format versions None w in
   exists rq,
     sent (snd out) = (sent w ++ [rq])%list /\
     rq_method rq = "GET" /\
     rq_url rq = "https://api.steampowered.com/ISteamWebAPIUtil/GetSupportedAPIList/v1/" /\
     rq_params rq
     = ("format", PyStr "json")
         :: match key with
            | Some EmptyString | None => []
            | Some k => [("key", PyStr k)]
            end /\
     (forall e, session_request rq = Err e -> fst (fst out) = Err e)) /\
  (forall module,
     sent (snd (API_init python_instantiate session_request json_loads
                         etree_fromstring vdf_loads
                         api_list_of key format versions (Some module) w))
     = sent w).
Proof.
  split; [|reflexivity]. intros out. subst out. unfold API_init.
  set (self := {| api_key := key;
                  api_format := chosen_format json_loads etree_fromstring vdf_loads format;
                  api_interfaces_module := []; api_interfaces := [] |}).
  set (fmt := Some (json_format json_loads)).
  assert (Hformat : In (format_tag (selected_decoder self fmt)) API_RESPONSE_FORMATS)
    by (simpl; auto).
  destruct (@request_without_params self "GET" "ISteamWebAPIUtil"
              "GetSupportedAPIList" 1 fmt w Hformat) as (rq & S & Pm & _).
  destruct (@request_returns_decoded self "GET" "ISteamWebAPIUtil"
              "GetSupportedAPIList" 1 None fmt w Hformat) as (rq' & S' & Hm & Hu & R).
  rewrite S in S'. apply app_inj_tail in S'. destruct S' as [_ <-].
  destruct (request session_request self "GET" "ISteamWebAPIUtil"
              "GetSupportedAPIList" 1 None fmt w) as [r w'].
  cbn [fst snd] in S, R.
  exists rq. split.
  - destruct r; exact S.
  - split; [exact Hm|]. split; [exact Hu|]. split; [exact Pm|].
    intros e He. rewrite He in R. subst r. reflexivity.
Qed.

End MoreRequestFacts.

Lemma request_without_params_witness :
  exists rq,
    sent (snd (request example_transport (example_api (Some "SECRET") "json")
                       "GET" "ISteamWebAPIUtil" "GetServerInfo" 1
                       None None example_world)) = [rq] /\
    rq_params rq = [("format", PyStr "json"); ("key", PyStr "SECRET")].
Proof.
  assert (Hformat : In (format_tag (selected_decoder
                                      (example_api (Some "SECRET") "json") None))
                       API_RESPONSE_FORMATS) by (simpl; auto).
  destruct (@request_without_params string example_transport
              (example_api (Some "SECRET") "json")
              "GET" "ISteamWebAPIUtil" "GetServerInfo" 1 None example_world Hformat)
    as (rq & S & P & _).
  exists rq. split; [exact S|exact P].
Defined.

Lemma request_returns_decoded_witness :
  fst (request example_transport (example_api None "vdf")
               "GET" "ISteamWebAPIUtil" "GetServerInfo" 1
               (Some 0%nat) None example_world) = Ok "{}".
Proof.
  assert (Hformat : In (format_tag (selected_decoder (example_api None "vdf") None))
                       API_RESPONSE_FORMATS) by (simpl; auto).
  destruct (@request_returns_decoded string example_transport
              (example_api None "vdf")
              "GET" "ISteamWebAPIUtil" "GetServerInfo" 1 (Some 0%nat) None
              example_world Hformat) as (rq & _ & _ & _ & R).
  exact R.
Defined.

Lemma unknown_format_name_rejected_witness :
  exists self,
    fst (fst (API_init example_instantiate example_transport
                (fun text => Ok text) (fun text => Ok text) (fun text => Ok text)
                (fun _ => Ok news_listing)
                (Some "SECRET") (inl "yaml") None (Some []) example_world))
    = Ok self /\
    sent (snd (request example_transport self
                 "GET" "ISteamWebAPIUtil" "GetServerInfo" 1
                 None None example_world)) = [].
Proof.
  assert (Hname : ~ In "yaml" API_RESPONSE_FORMATS).
  { simpl. intuition discriminate. }
  eexists. split; [reflexivity|].
  exact (proj2 (@unknown_format_name_rejected string example_instantiate
                  example_transport
                  (fun text => Ok text) (fun text => Ok text)
                  (fun text => Ok text)
                  (fun _ => Ok news_listing)
                  (Some "SECRET") "yaml" None (Some []) example_world _
                  "GET" "ISteamWebAPIUtil" "GetServerInfo" 1
                  None example_world Hname eq_refl)).
Defined.


(** X24. What validation returns for a parameter of type [uint32] is an
    integer of [[0, 4294967295]], for one of type [uint64] an integer of
    [[0, 18446744073709551615]], and for one of type [string] a text: no
    value outside its type's range is passed on to a request. *)
Theorem validated_values_in_range specs args log kwargs values p coerced
    (H : MethodParameters_init specs = (Ok args, log))
    (Hv : validate args kwargs = Ok values)
    (Hp : In p (Dict.values args))
    (Hc : Dict.get (p_name p) values = Some coerced) :
  (p_type p = "uint32" -> exists z, coerced = PyInt z /\ 0 <= z <= 4294967295) /\
  (p_type p = "uint64" ->
   exists z, coerced = PyInt z /\ 0 <= z <= 18446744073709551615) /\
  (p_type p = "string" -> exists s, coerced = PyStr s).
Proof.
  destruct (parameters_sorted _ H) as [_ T].
  pose proof (table_names T) as N. destruct T as [ND F].
  unfold validate in Hv.
  assert (NDn : NoDup (map p_name (Dict.values args))) by now rewrite N.
  destruct (@validate_loop_spec kwargs (Dict.values args) [] values NDn Hv)
    as [_ Each].
  pose proof (Each p Hp eq_refl) as V. unfold validated_as in V.
  destruct (supplied kwargs (p_name p)) as [v|]; [|destruct V; congruence].
  destruct V as (handler & c & Hh & Hr & Hg).
  rewrite Hc in Hg. injection Hg as ->.
  split; [|split]; intros Ht; rewrite Ht in Hh; simpl in Hh;
    injection Hh as <-.
  - unfold uint32 in Hr. destruct (py_int v) as [z|]; [|discriminate].
    destruct (Z.gtb_spec z 4294967295); [discriminate|].
    destruct (Z.ltb_spec z 0); [discriminate|].
    injection Hr as <-. exists z. split; [reflexivity|lia].
  - unfold uint64 in Hr. destruct (py_int v) as [z|]; [|discriminate].
    destruct (Z.gtb_spec z 18446744073709551615); [discriminate|].
    destruct (Z.ltb_spec z 0); [discriminate|].
    injection Hr as <-. exists z. split; [reflexivity|lia].
  - destruct v; simpl in Hr; injection Hr as <-; eauto.
Qed.

Lemma validated_values_in_range_witness :
  exists args values z,
    fst (MethodParameters_init example_params) = Ok args /\
    validate args [("steamid", PyStr "76561197960435530")] = Ok values /\
    Dict.get "steamid" values = Some (PyInt z) /\
    0 <= z <= 18446744073709551615.
Proof.
  destruct (MethodParameters_init example_params) as [[args|e] log] eqn:E;
    [|discriminate E].
  assert (A : args = sorted_by_key (map table_entry (described example_params))).
  { vm_compute in E. injection E as <- _. reflexivity. }
  destruct (validate args [("steamid", PyStr "76561197960435530")])
    as [values|e] eqn:V; [|exfalso; rewrite A in V; vm_compute in V; discriminate V].
  assert (Hp : In (snd (table_entry (hd (param_a None) example_params)))
                  (Dict.values args)).
  { rewrite A. vm_compute. auto. }
  assert (Hc : Dict.get (p_name (snd (table_entry (hd (param_a None) example_params))))
                        values = Some (PyInt 76561197960435530)).
  { rewrite A in V. vm_compute in V. injection V as <-. reflexivity. }
  destruct (@validated_values_in_range example_params args log _ values _ _ E V Hp Hc)
    as (_ & R & _).
  destruct (R eq_refl) as (z & Ez & Hz).
  exists args, values, z. split; [reflexivity|]. split; [exact V|].
  split; [|exact Hz]. rewrite <- Ez. exact Hc.
Defined.
